(** * Benchmark visualizer and harness: a shallow embedding

    The development follows the layout of the repository:
    - [Js]: the fragment of the JavaScript run time the visualizer relies on
      (IEEE 754 numbers, completions, [Number.prototype.toFixed],
      [Number::toString], property access, string helpers);
    - [Types]: [visualizer/src/types/benchmark.ts];
    - [Formatters]: [visualizer/src/utils/formatters.ts];
    - [Label], [BenchmarkTable], [BenchmarkChart], [BenchmarkView]: the
      components under [visualizer/src/components];
    - [CryptoBenchmark]: the base class of the JMH harness;
    - [Parser]: the pair matcher and the hierarchy builder of
      [visualizer/src/data/parser.ts];
    - [Sample]: a reference host and sample data;
    - [Props]: the predicates the statements are written with.

    A string is a sequence of code units, modelled by [string]; the literals
    of the sources outside ASCII (the multiplication sign, the superscripts,
    the middle dot) are written in UTF-8. The facts follow the definitions. *)

From Stdlib Require Import List String Ascii ZArith Bool Lia.
From Stdlib Require Import SpecFloat DecimalString.
Import ListNotations.
Open Scope string_scope.

(** * The JavaScript fragment *)

Module Js.

(** A JavaScript number is an IEEE 754 binary64 value. *)
Definition number := spec_float.
Definition prec : Z := 53%Z.
Definition emax : Z := 1024%Z.

(** Integer literals below 2^53 are exact. *)
Definition ofZ (z : Z) : number := binary_normalize prec emax z 0 false.

Definition div (x y : number) : number := SFdiv prec emax x y.

(** [x < y], [x > y], [x >= y], [x === y], [x !== y] on numbers: with a NaN
    operand the first four are false and the last is true; the two zeros are
    equal. *)
Definition lt (x y : number) : bool := SFltb x y.
Definition gt (x y : number) : bool := SFltb y x.
Definition ge (x y : number) : bool := SFleb y x.
Definition strictEq (x y : number) : bool := SFeqb x y.
Definition strictNe (x y : number) : bool := negb (SFeqb x y).

Definition sub (x y : number) : number := SFsub prec emax x y.
Definition mul (x y : number) : number := SFmul prec emax x y.
Definition abs (x : number) : number := SFabs x.

(** Errors a built-in can throw in the modelled fragment. *)
Inductive JsError := RangeError | URIError.

(** The outcome of evaluating an expression: a value or a thrown error. *)
Inductive completion (A : Type) : Type :=
| Normal (a : A)
| Throw (e : JsError).
Arguments Normal {A} a.
Arguments Throw {A} e.

Definition bind {A B} (c : completion A) (k : A -> completion B) : completion B :=
  match c with
  | Normal a => k a
  | Throw e => Throw e
  end.

Declare Scope completion_scope.
Delimit Scope completion_scope with completion.
Bind Scope completion_scope with completion.
Notation "x <- c ;; k" := (bind c (fun x => k))
  (at level 61, c at next level, right associativity) : completion_scope.
Open Scope completion_scope.

(** Truthiness of a string. *)
Definition truthy (s : string) : bool := negb (s =? "").

(** [parts.join(sep)]. *)
Fixpoint join (sep : string) (parts : list string) : string :=
  match parts with
  | [] => ""
  | [p] => p
  | p :: rest => p ++ sep ++ join sep rest
  end.

(** [s.startsWith(prefix)] and [s.slice(n)]. *)
Definition startsWith (s pre : string) : bool := String.prefix pre s.
Definition slice (n : nat) (s : string) : string := substring n (length s - n) s.

(** ** Decimal rendering of integers *)

Definition digits (n : Z) : string := NilZero.string_of_uint (N.to_uint (Z.to_N n)).

Fixpoint zeros (n : nat) : string :=
  match n with
  | O => ""
  | S k => String "0" (zeros k)
  end.

Definition pow10 (n : nat) : Z := (10 ^ Z.of_nat n)%Z.

(** ** [Number.prototype.toFixed]

    For a finite [x = m * 2^e >= 0], [roundScaled m e f] is the integer [n]
    for which [n / 10^f - x] is as close to zero as possible, the larger one
    when two are equally close. *)
Definition roundScaled (m : positive) (e : Z) (f : nat) : Z :=
  match e with
  | Zneg k => ((2 * Zpos m * pow10 f + 2 ^ Zpos k) / (2 * 2 ^ Zpos k))%Z
  | _ => (Zpos m * 2 ^ e * pow10 f)%Z
  end.

(** [10^21 <= m * 2^e]. *)
Definition atLeast1e21 (m : positive) (e : Z) : bool :=
  match e with
  | Zneg k => (10 ^ 21 * 2 ^ Zpos k <=? Zpos m)%Z
  | _ => (10 ^ 21 <=? Zpos m * 2 ^ e)%Z
  end.

(** Steps 11.b to 11.d of the algorithm: the digits of [n], padded on the
    left to [f + 1] characters, with a point before the last [f]. *)
Definition fixedDigits (n : Z) (f : nat) : string :=
  let m := digits n in
  match f with
  | O => m
  | _ =>
    let k := length m in
    let m' := if (k <=? f)%nat then zeros (f + 1 - k) ++ m else m in
    let k' := length m' in
    substring 0 (k' - f) m' ++ "." ++ substring (k' - f) f m'
  end.

(** ** [Number::toString] (radix 10)

    For a finite [x = m * 2^e > 0] the algorithm takes the integers [n], [k]
    and [s] with [10^(k-1) <= s < 10^k], [s * 10^(n-k)] rounding to [x] and
    [k] as small as possible; among several [s] the one closest to [x], the
    even one on a tie. Values are compared exactly, by cross
    multiplication. *)

(** [a * 10^p ?= b * 2^q]. *)
Definition cmpScaled (a p b q : Z) : comparison :=
  (a * 10 ^ Z.max p 0 * 2 ^ Z.max (- q) 0 ?= b * 2 ^ Z.max q 0 * 10 ^ Z.max (- p) 0)%Z.

(** The reals rounding to [m * 2^e] form an interval whose ends lie half a
    gap below and above; in units of [2^(e-2)] they are [lowEnd] and
    [4m + 2]. The ends belong to the interval when [m] is even. *)
Definition lowEnd (m : positive) (e : Z) : Z :=
  if (Zpos m =? 2 ^ 52)%Z && (-1074 <? e)%Z then (4 * Zpos m - 1)%Z else (4 * Zpos m - 2)%Z.

Definition roundsTo (m : positive) (e : Z) (s p : Z) : bool :=
  let below := cmpScaled s p (lowEnd m e) (e - 2)%Z in
  let above := cmpScaled s p (4 * Zpos m + 2)%Z (e - 2)%Z in
  match below, above with
  | Gt, Lt => true
  | Eq, Lt | Gt, Eq => Z.even (Zpos m)
  | _, _ => false
  end.

(** The [n] with [10^(n-1) <= m * 2^e < 10^n], searched downwards from an
    estimate that is never too small. *)
Fixpoint decimalExponentFrom (fuel : nat) (m : positive) (e : Z) (n : Z) : Z :=
  match fuel with
  | O => n
  | S fuel' =>
    match cmpScaled 1 (n - 1)%Z (Zpos m) e with
    | Gt => decimalExponentFrom fuel' m e (n - 1)%Z
    | _ => n
    end
  end.

Definition decimalExponent (m : positive) (e : Z) : Z :=
  decimalExponentFrom 6 m e ((Z.log2 (Zpos m) + 1 + e) * 30103 / 100000 + 2)%Z.

(** The [k]-digit candidate for exponent [n], if there is one. *)
Definition candidate (m : positive) (e : Z) (k n : Z) : option Z :=
  let p := (n - k)%Z in
  let num := (Zpos m * 2 ^ Z.max e 0 * 10 ^ Z.max (- p) 0)%Z in
  let den := (2 ^ Z.max (- e) 0 * 10 ^ Z.max p 0)%Z in
  let lo := (num / den)%Z in
  let hi := (lo + 1)%Z in
  let ok s := (10 ^ (k - 1) <=? s)%Z && (s <? 10 ^ k)%Z && roundsTo m e s p in
  match ok lo, ok hi with
  | true, false => Some lo
  | false, true => Some hi
  | false, false => None
  | true, true =>
    match (num - lo * den ?= hi * den - num)%Z with
    | Lt => Some lo
    | Gt => Some hi
    | Eq => Some (if Z.even lo then lo else hi)
    end
  end.

Fixpoint shortestFrom (fuel : nat) (m : positive) (e : Z) (n0 k : Z) : Z * Z :=
  match fuel with
  | O => (Zpos m, 0%Z)
  | S fuel' =>
    match candidate m e k n0 with
    | Some s => (s, n0)
    | None =>
      match candidate m e k (n0 + 1)%Z with
      | Some s => (s, (n0 + 1)%Z)
      | None => shortestFrom fuel' m e n0 (k + 1)%Z
      end
    end
  end.

Definition shortest (m : positive) (e : Z) : Z * Z :=
  shortestFrom 17 m e (decimalExponent m e) 1.

Definition positiveToString (m : positive) (e : Z) : string :=
  let '(s, n) := shortest m e in
  let ds := digits s in
  let k := Z.of_nat (length ds) in
  if (k <=? n)%Z && (n <=? 21)%Z then ds ++ zeros (Z.to_nat (n - k)%Z)
  else if (0 <? n)%Z && (n <=? 21)%Z then
    substring 0 (Z.to_nat n) ds ++ "." ++ substring (Z.to_nat n) (Z.to_nat (k - n)%Z) ds
  else if (-6 <? n)%Z && (n <=? 0)%Z then "0." ++ zeros (Z.to_nat (- n)) ++ ds
  else
    let c := if (n - 1 <? 0)%Z then "-" else "+" in
    let d := digits (Z.abs (n - 1)%Z) in
    if (k =? 1)%Z then ds ++ "e" ++ c ++ d
    else substring 0 1 ds ++ "." ++ substring 1 (Z.to_nat (k - 1)%Z) ds ++ "e" ++ c ++ d.

Definition numberToString (x : number) : string :=
  match x with
  | S754_nan => "NaN"
  | S754_zero _ => "0"
  | S754_infinity false => "Infinity"
  | S754_infinity true => "-Infinity"
  | S754_finite false m e => positiveToString m e
  | S754_finite true m e => "-" ++ positiveToString m e
  end.

(** [x.toFixed(fractionDigits)]; a [RangeError] outside 0..100. *)
Definition toFixed (x : number) (fractionDigits : Z) : completion string :=
  if (fractionDigits <? 0)%Z || (100 <? fractionDigits)%Z then Throw RangeError
  else
    let f := Z.to_nat fractionDigits in
    Normal
      match x with
      | S754_finite s m e =>
        (if s then "-" else "") ++
        (if atLeast1e21 m e then positiveToString m e
         else fixedDigits (roundScaled m e f) f)
      | S754_zero _ => fixedDigits 0 f
      | _ => numberToString x
      end.

(** [Math.floor]: exact on every number. *)
Definition Math_floor (x : number) : number :=
  match x with
  | S754_finite s m (Zneg k) =>
    let q := (Zpos m / 2 ^ Zpos k)%Z in
    let r := (Zpos m mod 2 ^ Zpos k)%Z in
    if s then binary_normalize prec emax (- (if (r =? 0)%Z then q else q + 1))%Z 0 true
    else binary_normalize prec emax q 0 false
  | _ => x
  end.

(** What ECMAScript leaves to the implementation: [Math.log10] and
    [Math.pow] are implementation-approximated, [toUpperCase] follows the
    Unicode tables of the engine, and the text of a built-in function is
    implementation-defined. *)
Record Host := {
  Math_log10 : number -> number;
  Math_pow : number -> number -> number;
  toUpperCase : string -> string;
  inheritedToString : string -> string
}.

(** ** Property access on an object literal

    [table[key]] finds the literal's own entries first and then the
    properties every object inherits from [Object.prototype]; all of those
    are truthy (functions, and the prototype object for [__proto__]). *)
Definition objectPrototypeKeys : list string :=
  [ "constructor"; "__defineGetter__"; "__defineSetter__"; "hasOwnProperty";
    "__lookupGetter__"; "__lookupSetter__"; "isPrototypeOf";
    "propertyIsEnumerable"; "toString"; "valueOf"; "__proto__";
    "toLocaleString" ].

Inductive property := Own (v : string) | Inherited | Missing.

Fixpoint ownProperty (table : list (string * string)) (key : string) : option string :=
  match table with
  | [] => None
  | (k, v) :: rest => if k =? key then Some v else ownProperty rest key
  end.

Definition getProperty (table : list (string * string)) (key : string) : property :=
  match ownProperty table key with
  | Some v => Own v
  | None => if existsb (String.eqb key) objectPrototypeKeys then Inherited else Missing
  end.

(** [/^\d/.test(s)]. *)
Definition startsWithDigit (s : string) : bool :=
  match s with
  | String c _ => (48 <=? nat_of_ascii c)%nat && (nat_of_ascii c <=? 57)%nat
  | EmptyString => false
  end.

(** [s.charAt(0)]. *)
Definition charAt0 (s : string) : string :=
  match s with
  | String c _ => String c ""
  | EmptyString => ""
  end.

(** [s.split('')]: the code units, one string each. *)
Fixpoint chars (s : string) : list string :=
  match s with
  | String c rest => String c "" :: chars rest
  | EmptyString => []
  end.

End Js.

(** * [types/benchmark.ts] *)

Module Types.
Import Js.

Inductive JmhMode := thrpt | avgt | ss | sample.
Inductive Provider := BC | Jostle.
Inductive BenchmarkCategory := PQC | KDF | Symmetric.

(** The fields of a JMH result the visualizer reads. *)
Module Jmh.
Record JmhPrimaryMetric := {
  score : number;
  scoreError : number;
  scoreUnit : string
}.

Record JmhBenchmarkResult := {
  benchmark : string;
  mode : JmhMode;
  params : list (string * string);
  primaryMetric : JmhPrimaryMetric
}.
End Jmh.
Definition JmhBenchmarkResult := Jmh.JmhBenchmarkResult.

Module Parsed.
Record ParsedBenchmark := {
  id : string;
  category : BenchmarkCategory;
  algorithm : string;
  operation : string;
  variant : string;
  mode : option string;
  cipherMode : option string;
  padding : option string;
  hashAlgorithm : option string;
  iterations : option string;
  jmhMode : JmhMode;
  provider : Provider;
  score : number;
  scoreError : number;
  scoreUnit : string;
  rawData : Jmh.JmhBenchmarkResult
}.
End Parsed.
Definition ParsedBenchmark := Parsed.ParsedBenchmark.

Record BenchmarkComparison := {
  id : string;
  category : BenchmarkCategory;
  algorithm : string;
  operation : string;
  variant : string;
  mode : option string;
  cipherMode : option string;
  padding : option string;
  hashAlgorithm : option string;
  iterations : option string;
  jmhMode : JmhMode;
  bcScore : option number;
  bcError : option number;
  jostleScore : option number;
  jostleError : option number;
  scoreUnit : string;
  bcRaw : option JmhBenchmarkResult;
  jostleRaw : option JmhBenchmarkResult
}.

Local Unset Elimination Schemes.
Inductive HierarchyNode := mkNode {
  name : string;
  path : string;
  children : list HierarchyNode;
  comparisons : list BenchmarkComparison
}.
Local Set Elimination Schemes.

(** Induction on a tree, with the hypothesis available for every child. *)
Fixpoint HierarchyNode_ind (P : HierarchyNode -> Prop)
    (step : forall name path children comparisons,
        Forall P children -> P (mkNode name path children comparisons))
    (node : HierarchyNode) : P node :=
  match node with
  | mkNode name path children comparisons =>
    step name path children comparisons
      ((fix all (l : list HierarchyNode) : Forall P l :=
          match l with
          | [] => Forall_nil P
          | child :: rest => Forall_cons child (HierarchyNode_ind P step child) (all rest)
          end) children)
  end.

(** Membership of a node in a tree. *)
Inductive InTree (n : HierarchyNode) : HierarchyNode -> Prop :=
| InTree_here : InTree n n
| InTree_child : forall m child,
    In child (children m) -> InTree n child -> InTree n m.

Definition JMH_MODE_LABELS (m : JmhMode) : string :=
  match m with
  | thrpt => "Throughput"
  | avgt => "Average Time"
  | ss => "Single Shot"
  | sample => "Sampling"
  end.

Definition categoryName (c : BenchmarkCategory) : string :=
  match c with
  | PQC => "PQC"
  | KDF => "KDF"
  | Symmetric => "Symmetric"
  end.

End Types.

(** * [utils/formatters.ts] *)

Module Formatters.
Import Js.

Section WithHost.
Variable host : Host.

Definition specialCases : list (string * string) :=
  [ ("MlKem", "ML-KEM"); ("MlDsa", "ML-DSA"); ("SlhDsa", "SLH-DSA");
    ("Pbkdf2", "PBKDF2"); ("Aes", "AES"); ("Sm4", "SM4"); ("Des", "DES");
    ("TripleDes", "3DES"); ("Rsa", "RSA"); ("Ecdsa", "ECDSA");
    ("Ecdh", "ECDH"); ("Sha256", "SHA-256"); ("Sha384", "SHA-384");
    ("Sha512", "SHA-512"); ("Sha3", "SHA-3"); ("Hmac", "HMAC") ].

(** The loop over [Object.entries(specialCases)]: the first key that is a
    prefix of [name] decides. *)
Fixpoint expandPrefix (entries : list (string * string)) (name : string) : string :=
  match entries with
  | [] => name
  | (key, value) :: rest =>
    if startsWith name key then
      let suffix := slice (length key) name in
      if startsWith suffix "-" then value ++ suffix
      else if startsWithDigit suffix then value ++ "-" ++ suffix
      else value ++ suffix
    else expandPrefix rest name
  end.

Definition formatAlgorithmName (name : string) : string :=
  match getProperty specialCases name with
  | Own v => v
  | Inherited => inheritedToString host name
  | Missing => expandPrefix specialCases name
  end.

Definition operationMap : list (string * string) :=
  [ ("keyGen", "Key Generation"); ("encrypt", "Encrypt"); ("decrypt", "Decrypt");
    ("sign", "Sign"); ("verify", "Verify"); ("deriveKey", "Key Derivation");
    ("encapsulate", "Encapsulate"); ("decapsulate", "Decapsulate") ].

Definition formatOperationName (name : string) : string :=
  match getProperty operationMap name with
  | Own v => v
  | Inherited => inheritedToString host name
  | Missing => toUpperCase host (charAt0 name) ++ slice 1 name
  end.

(** The optional [context] of [formatNodeName]. *)
Inductive NodeContext := algorithmContext | operationContext | categoryContext.

Definition formatNodeName (name : string) (context : option NodeContext) : string :=
  match context with
  | Some operationContext => formatOperationName name
  | Some algorithmContext => formatAlgorithmName name
  | _ => name
  end.

Definition formatVariantName (name : string) : string :=
  if name =? "default" then "Default" else formatAlgorithmName name.

(** [parts.map((part, index) => ...)] from [index] on. *)
Fixpoint displayParts (index : nat) (parts : list string) : list string :=
  match parts with
  | [] => []
  | part :: rest =>
    match index with
    | 0 => part
    | 1 => formatAlgorithmName part
    | 2 => formatOperationName part
    | _ => formatVariantName part
    end :: displayParts (S index) rest
  end.

Definition buildDisplayPath (parts : list string) : string :=
  join " / " (displayParts 0 parts).

Definition superscriptDigits : list (string * string) :=
  [ ("0", "⁰"); ("1", "¹"); ("2", "²"); ("3", "³"); ("4", "⁴");
    ("5", "⁵"); ("6", "⁶"); ("7", "⁷"); ("8", "⁸"); ("9", "⁹");
    ("-", "⁻"); ("+", "⁺") ].

Definition toSuperscript (num : number) : string :=
  join ""
    (map (fun c => match ownProperty superscriptDigits c with
                   | Some v => v
                   | None => c
                   end)
         (chars (numberToString num))).

(** [decimals] is an optional argument; [None] is a call without it. *)
Definition formatPowerOfTen (value : number) (decimals : option Z) : completion string :=
  let decimals := match decimals with Some d => d | None => 4%Z end in
  let exp := Math_floor (Math_log10 host (abs value)) in
  let mantissa := div value (Math_pow host (ofZ 10) exp) in
  digits <- toFixed mantissa decimals ;;
  Normal (digits ++ " × 10" ++ toSuperscript exp).

Definition formatScoreValue (value : option number) (decimals : option Z) : completion string :=
  let decimals := match decimals with Some d => d | None => 4%Z end in
  match value with
  | None => Normal "N/A"
  | Some value =>
    if ge value (ofZ 1000) || (gt value (ofZ 0) && lt value (div (ofZ 1) (ofZ 100)))
    then formatPowerOfTen value None
    else toFixed value decimals
  end.

Definition formatErrorMargin (value : option number) : completion string :=
  match value with
  | None => Normal "N/A"
  | Some _ => s <- formatScoreValue value None ;; Normal ("+/- " ++ s)
  end.

Definition formatRatio (value : option number) (decimals : option Z) : completion string :=
  let decimals := match decimals with Some d => d | None => 2%Z end in
  match value with
  | None => Normal "N/A"
  | Some value => s <- toFixed value decimals ;; Normal (s ++ "x")
  end.

Definition formatScoreWithUnit (value : option number) (unit : string) : completion string :=
  match value with
  | None => Normal "N/A"
  | Some value =>
    if ge value (ofZ 1000) || (gt value (ofZ 0) && lt value (div (ofZ 1) (ofZ 100)))
    then s <- formatPowerOfTen value None ;; Normal (s ++ " " ++ unit)
    else s <- toFixed value 4 ;; Normal (s ++ " " ++ unit)
  end.

Definition formatTooltipError (value : number) : completion string :=
  if ge value (ofZ 1000) || (gt value (ofZ 0) && lt value (div (ofZ 1) (ofZ 100)))
  then formatPowerOfTen value None
  else toFixed value 4.

End WithHost.

End Formatters.

(** * Label assembly shared by the table and the chart

    [BenchmarkTable] builds the row name inline and [BenchmarkChart] has
    [formatLabel]; the two bodies are the same statement for statement and
    differ in the separator only. *)

Module Label.
Import Js Types Formatters.

(** [new Set(xs).size > 1]. *)
Definition hasMultiple (xs : list string) : bool :=
  match xs with
  | [] => false
  | x :: rest => existsb (fun y => negb (y =? x)) rest
  end.

Record LabelContext := {
  hasMultipleAlgorithms : bool;
  hasMultipleOperations : bool
}.

Definition labelContext (comparisons : list BenchmarkComparison) : LabelContext :=
  {| hasMultipleAlgorithms := hasMultiple (map algorithm comparisons);
     hasMultipleOperations := hasMultiple (map operation comparisons) |}.

(** [parts.push(x)]. *)
Definition push (parts : list string) (x : string) : list string :=
  (parts ++ [x])%list.

(** [if (o) parts.push(o)] on a nullable string. *)
Definition pushIf (o : option string) (parts : list string) : list string :=
  match o with
  | Some s => if truthy s then push parts s else parts
  | None => parts
  end.

Section WithHost.
Variable host : Host.

(** The array [parts] at the end of the function, before filtering. *)
Definition labelParts (comparison : BenchmarkComparison) (context : LabelContext)
  : list string :=
  let parts := [] in
  let parts :=
    if hasMultipleAlgorithms context
    then push parts (formatAlgorithmName host (algorithm comparison)) else parts in
  let parts :=
    if hasMultipleOperations context
    then push parts (formatOperationName host (operation comparison)) else parts in
  match category comparison with
  | Symmetric =>
    let parts := push parts (variant comparison) in
    let parts := pushIf (cipherMode comparison) parts in
    pushIf (padding comparison) parts
  | KDF =>
    let parts := pushIf (hashAlgorithm comparison) parts in
    let parts := pushIf (iterations comparison) parts in
    match parts with
    | [] => push parts (variant comparison)
    | _ => parts
    end
  | PQC =>
    let variant := if negb (variant comparison =? "default") then variant comparison else "" in
    if truthy variant then push parts (formatVariantName host variant) else parts
  end.

Definition labelWith (sep : string) (comparison : BenchmarkComparison)
    (context : LabelContext) : string :=
  join sep (filter truthy (labelParts comparison context)).

End WithHost.
End Label.

(** * [components/BenchmarkTable.tsx] *)

Module BenchmarkTable.
Import Js Types Formatters Label.

Definition getRatioClass (ratio : option number) : string :=
  match ratio with
  | None => ""
  | Some ratio =>
    if gt ratio (div (ofZ 11) (ofZ 10)) then "faster"
    else if lt ratio (div (ofZ 9) (ofZ 10)) then "slower"
    else "similar"
  end.

(** The ratio of a row: computed while rendering, not read from the
    comparison. *)
Definition rowRatio (c : BenchmarkComparison) : option number :=
  match bcScore c, jostleScore c with
  | Some bc, Some jostle => Some (div jostle bc)
  | _, _ => None
  end.

(** The pair [(winner, winnerKey)] of a row. *)
Definition rowWinner (jmhMode : JmhMode) (c : BenchmarkComparison) : string * string :=
  match bcScore c, jostleScore c with
  | Some bc, Some jostle =>
    let isHigherBetter := match jmhMode with thrpt => true | _ => false end in
    if isHigherBetter then
      (if gt jostle bc then "Jostle" else "BC", if gt jostle bc then "jostle" else "bc")
    else
      (if lt jostle bc then "Jostle" else "BC", if lt jostle bc then "jostle" else "bc")
  | _, _ => ("N/A", "")
  end.

Record Row := {
  key : string;
  displayName : string;
  bcScoreCell : string;
  bcErrorCell : string;
  jostleScoreCell : string;
  jostleErrorCell : string;
  ratioCell : string;
  ratioClass : string;
  winner : string;
  winnerClass : string
}.

Inductive Rendered :=
| Empty (message : string)
| Table (title subtitle : string) (rows : list Row).

Section WithHost.
Variable host : Host.

Definition displayNameOf (c : BenchmarkComparison) (context : LabelContext) : string :=
  labelWith host "  Â·  " c context.

Definition ratioText (c : BenchmarkComparison) : completion string :=
  formatRatio (rowRatio c) None.

Definition row (jmhMode : JmhMode) (context : LabelContext) (c : BenchmarkComparison)
  : completion Row :=
  let ratio := rowRatio c in
  let '(winner, winnerKey) := rowWinner jmhMode c in
  let displayName := displayNameOf c context in
  bcS <- formatScoreValue host (bcScore c) None ;;
  bcE <- formatErrorMargin host (bcError c) ;;
  joS <- formatScoreValue host (jostleScore c) None ;;
  joE <- formatErrorMargin host (jostleError c) ;;
  r <- ratioText c ;;
  Normal {| key := id c;
            displayName := displayName;
            bcScoreCell := bcS;
            bcErrorCell := bcE;
            jostleScoreCell := joS;
            jostleErrorCell := joE;
            ratioCell := r;
            ratioClass := getRatioClass ratio;
            winner := winner;
            winnerClass := if winnerKey =? "jostle" then "jostleWin"
                           else if winnerKey =? "bc" then "bcWin" else "" |}.

Fixpoint rows (jmhMode : JmhMode) (context : LabelContext)
    (cs : list BenchmarkComparison) : completion (list Row) :=
  match cs with
  | [] => Normal []
  | c :: rest =>
    r <- row jmhMode context c ;;
    rs <- rows jmhMode context rest ;;
    Normal (r :: rs)
  end.

Definition BenchmarkTable (comparisons : list BenchmarkComparison)
    (title path : string) (jmhMode : JmhMode) : completion Rendered :=
  match comparisons with
  | [] => Normal (Empty "No data available.")
  | first :: _ =>
    let modeLabel := JMH_MODE_LABELS jmhMode in
    let unit := scoreUnit first in
    rs <- rows jmhMode (labelContext comparisons) comparisons ;;
    Normal (Table (title ++ " - Detailed Data") (modeLabel ++ " (" ++ unit ++ ")") rs)
  end.

End WithHost.
End BenchmarkTable.

(** * [components/BenchmarkChart.tsx]

    The chart with its subtitle, its axis domain and its data points, and
    the tooltip. The sizes handed to the chart library ([chartHeight],
    [labelWidth]) are left out: they do not reach any text the component
    produces. *)

Module BenchmarkChart.
Import Js Types Formatters Label.

Record ChartDataPoint := {
  name : string;
  bc : option number;
  bcError : option number;
  jostle : option number;
  jostleError : option number;
  unit : string;
  jmhMode : JmhMode;
  fullData : BenchmarkComparison;
  algorithmDisplay : string;
  operationDisplay : string;
  variantDisplay : string
}.

Record TooltipVerdict := {
  ratioLine : string;
  winner : string;
  diffPercent : string
}.

Record Tooltip := {
  bcLine : string;
  bcErrorLine : option string;
  jostleLine : string;
  jostleErrorLine : option string;
  verdict : option TooltipVerdict
}.

(** The axis: whether the domain starts near the minimum, and its two
    ends. *)
Record Domain := {
  useAdjustedDomain : bool;
  domainMin : number;
  domainMax : number
}.

(** [subtitle] is the text of the subtitle paragraph; [axis] is the
    [domain] handed to the x axis. *)
Inductive Rendered :=
| Empty (message : string)
| Chart (title subtitle : string) (axis : number * number)
        (chartData : list ChartDataPoint).

(** [winner] as [CustomTooltip] computes it. *)
Definition tooltipWinner (data : ChartDataPoint) : string :=
  let isHigherBetter := match jmhMode data with thrpt => true | _ => false end in
  match bc data, jostle data with
  | Some b, Some j =>
    let jostleWins := if isHigherBetter then gt j b else lt j b in
    if jostleWins then "Jostle" else "BC"
  | _, _ => ""
  end.

Definition percent (x : number) : completion string :=
  toFixed (mul x (ofZ 100)) 1.

Definition tooltipDiffPercent (data : ChartDataPoint) : completion string :=
  let isHigherBetter := match jmhMode data with thrpt => true | _ => false end in
  match bc data, jostle data with
  | Some b, Some j =>
    if strictNe b (ofZ 0) then
      let ratio := div j b in
      if isHigherBetter then
        if gt ratio (ofZ 1)
        then s <- percent (sub ratio (ofZ 1)) ;; Normal (s ++ "% faster")
        else s <- percent (sub (ofZ 1) ratio) ;; Normal (s ++ "% slower")
      else
        if lt ratio (ofZ 1)
        then s <- percent (sub (ofZ 1) ratio) ;; Normal (s ++ "% faster")
        else s <- percent (sub ratio (ofZ 1)) ;; Normal (s ++ "% slower")
    else Normal ""
  | _, _ => Normal ""
  end.

(** The ratio line of the tooltip, shown when both scores are there. *)
Definition tooltipRatio (data : ChartDataPoint) : option (completion string) :=
  match bc data, jostle data with
  | Some b, Some j => Some (s <- toFixed (div j b) 3 ;; Normal (s ++ "x"))
  | _, _ => None
  end.

(** [Math.max(...values)] and [Math.min(...values)]: NaN with a NaN among
    the values, minus and plus infinity without values. *)
Definition isNaN (x : number) : bool :=
  match x with
  | S754_nan => true
  | _ => false
  end.

Definition max2 (a b : number) : number :=
  if isNaN a || isNaN b then S754_nan
  else if lt a b then b
  else if lt b a then a
  else match a, b with
       | S754_zero true, S754_zero false => b
       | _, _ => a
       end.

Definition min2 (a b : number) : number :=
  if isNaN a || isNaN b then S754_nan
  else if lt a b then a
  else if lt b a then b
  else match a, b with
       | S754_zero false, S754_zero true => b
       | _, _ => a
       end.

Definition Math_max (values : list number) : number :=
  fold_left max2 values (S754_infinity true).

Definition Math_min (values : list number) : number :=
  fold_left min2 values (S754_infinity false).

(** [[d.bc, d.jostle].filter((v) => v !== null && v > 0)]. *)
Definition positiveScores (d : ChartDataPoint) : list number :=
  let keep (v : option number) :=
    match v with
    | Some x => if gt x (ofZ 0) then [x] else []
    | None => []
    end in
  (keep (bc d) ++ keep (jostle d))%list.

Definition allValues (chartData : list ChartDataPoint) : list number :=
  flat_map positiveScores chartData.

(** A number above zero. *)
Definition positive (x : number) : Prop := gt x (ofZ 0) = true.

Definition domain (chartData : list ChartDataPoint) : Domain :=
  let maxValue := Math_max (allValues chartData) in
  let minValue := Math_min (allValues chartData) in
  let rangeRatio := div maxValue minValue in
  let adjusted := lt rangeRatio (ofZ 10) && gt minValue (ofZ 0) in
  {| useAdjustedDomain := adjusted;
     domainMin := if adjusted then mul minValue (div (ofZ 1) (ofZ 2)) else ofZ 0;
     domainMax := mul maxValue (div (ofZ 115) (ofZ 100)) |}.

Definition optionally {A} (o : option (completion A)) : completion (option A) :=
  match o with
  | None => Normal None
  | Some c => a <- c ;; Normal (Some a)
  end.

Section WithHost.
Variable host : Host.

Definition formatLabel (comparison : BenchmarkComparison) (context : LabelContext) : string :=
  labelWith host "  ·  " comparison context.

Definition CustomTooltip (active : bool) (payload : option (list ChartDataPoint))
  : completion (option Tooltip) :=
  match active, payload with
  | true, Some (first :: _) =>
    let data := first in
    let winner := tooltipWinner data in
    diff <- tooltipDiffPercent data ;;
    bcL <- formatScoreWithUnit host (bc data) (unit data) ;;
    bcE <- optionally (option_map (formatTooltipError host) (bcError data)) ;;
    joL <- formatScoreWithUnit host (jostle data) (unit data) ;;
    joE <- optionally (option_map (formatTooltipError host) (jostleError data)) ;;
    r <- optionally (tooltipRatio data) ;;
    Normal (Some {| bcLine := bcL;
                    bcErrorLine := option_map (fun s => "+/- " ++ s) bcE;
                    jostleLine := joL;
                    jostleErrorLine := option_map (fun s => "+/- " ++ s) joE;
                    verdict := option_map (fun r =>
                      {| ratioLine := r; winner := winner; diffPercent := diff |}) r |})
  | _, _ => Normal None
  end.

Definition chartPoint (jmhMode : JmhMode) (context : LabelContext)
    (c : BenchmarkComparison) : ChartDataPoint :=
  {| name := formatLabel c context;
     bc := bcScore c;
     bcError := Types.bcError c;
     jostle := jostleScore c;
     jostleError := Types.jostleError c;
     unit := scoreUnit c;
     jmhMode := jmhMode;
     fullData := c;
     algorithmDisplay := formatAlgorithmName host (algorithm c);
     operationDisplay := formatOperationName host (operation c);
     variantDisplay := formatVariantName host (variant c) |}.

(** The tick formatter. *)
Definition formatXAxis (value : number) : completion string :=
  if strictEq value (ofZ 0) then Normal "0"
  else if ge value (ofZ 1000) || (gt value (ofZ 0) && lt value (div (ofZ 1) (ofZ 100)))
  then formatPowerOfTen host value (Some 1%Z)
  else if lt value (ofZ 1) then toFixed value 2
  else toFixed value 0.

(** The note that follows the mode label and the unit in the subtitle. *)
Definition scaleNote (adjusted : bool) : string :=
  if adjusted then " · Axis scaled for visibility" else "".

Definition BenchmarkChart (comparisons : list BenchmarkComparison)
    (title path : string) (jmhMode : JmhMode) : Rendered :=
  match comparisons with
  | [] => Empty "No data available for this selection."
  | first :: _ =>
    let chartData := map (chartPoint jmhMode (labelContext comparisons)) comparisons in
    let unit := scoreUnit first in
    let modeLabel := JMH_MODE_LABELS jmhMode in
    let axis := domain chartData in
    Chart title
          ((modeLabel ++ " (" ++ unit ++ ")") ++ scaleNote (useAdjustedDomain axis))
          (domainMin axis, domainMax axis)
          chartData
  end.

End WithHost.
End BenchmarkChart.

(** * [components/BenchmarkView.tsx] *)

Module BenchmarkView.
Import Js Types Formatters.

Fixpoint findNode (hierarchy : HierarchyNode) (path : string) : option HierarchyNode :=
  if (path =? "") || (path =? Types.path hierarchy) then Some hierarchy
  else
    (fix loop (cs : list HierarchyNode) : option HierarchyNode :=
       match cs with
       | [] => None
       | child :: rest =>
         if Types.path child =? path then Some child
         else
           match findNode child path with
           | Some found => Some found
           | None => loop rest
           end
       end) (children hierarchy).

(** [s.split('/')]. *)
Fixpoint splitSlash (s : string) : list string :=
  match s with
  | EmptyString => [""]
  | String c rest =>
    if Ascii.eqb c "/" then "" :: splitSlash rest
    else
      match splitSlash rest with
      | h :: t => String c h :: t
      | [] => [String c ""]
      end
  end.

Definition mode_eqb (a b : JmhMode) : bool :=
  match a, b with
  | thrpt, thrpt | avgt, avgt | ss, ss | sample, sample => true
  | _, _ => false
  end.

(** The [Map] from mode to comparisons, in insertion order. *)
Fixpoint groupInsert (c : BenchmarkComparison)
    (groups : list (JmhMode * list BenchmarkComparison))
  : list (JmhMode * list BenchmarkComparison) :=
  match groups with
  | [] => [(jmhMode c, [c])]
  | (m, cs) :: rest =>
    if mode_eqb m (jmhMode c) then (m, (cs ++ [c])%list) :: rest
    else (m, cs) :: groupInsert c rest
  end.

Definition groupByJmhMode (cs : list BenchmarkComparison)
  : list (JmhMode * list BenchmarkComparison) :=
  fold_left (fun groups c => groupInsert c groups) cs [].

Inductive ViewMode := chart | table | both.

(** The component state: [useState('both')] and [useState('all')]. *)
Record ViewState := {
  viewMode : ViewMode;
  selectedJmhMode : option JmhMode
}.

Definition initialState : ViewState :=
  {| viewMode := both; selectedJmhMode := None |}.

Record ModeSection := {
  modeTitle : string;
  chartPanel : option BenchmarkChart.Rendered;
  tablePanel : option BenchmarkTable.Rendered
}.

Record Panel := {
  breadcrumbs : list (string * string);
  title : string;
  comparisonCount : nat;
  modeCount : nat;
  sections : list ModeSection;
  noBenchmarksNotice : bool
}.

Inductive Rendered :=
| Placeholder (message : string)
| Content (panel : Panel).

Section WithHost.
Variable host : Host.

(** [decodeURIComponent], a built-in that throws [URIError] on a malformed
    escape, and the two helpers imported from [data/parser]. *)
Variable decodeURIComponent : string -> completion string.
Variable filterByJmhMode : list BenchmarkComparison -> JmhMode -> list BenchmarkComparison.
Variable getUniqueJmhModes : list BenchmarkComparison -> list JmhMode.

Definition formatBreadcrumbPart (part : string) (index : nat) (category : string)
  : completion string :=
  decoded <- decodeURIComponent part ;;
  Normal
    match index with
    | 0 => decoded
    | 1 => formatAlgorithmName host decoded
    | 2 => if category =? "KDF" then decoded else formatOperationName host decoded
    | _ => formatVariantName host decoded
    end.

(** The loop of [getBreadcrumbs] from index [i] on. *)
Fixpoint breadcrumbsFrom (parts : list string) (i : nat) (currentPath category : string)
  : completion (list (string * string)) :=
  match parts with
  | [] => Normal []
  | part :: rest =>
    let currentPath := if truthy currentPath then currentPath ++ "/" ++ part else part in
    name <- formatBreadcrumbPart part i category ;;
    more <- breadcrumbsFrom rest (S i) currentPath category ;;
    Normal ((name, currentPath) :: more)
  end.

Definition getBreadcrumbs (path : string) : completion (list (string * string)) :=
  if negb (truthy path) then Normal [("All Benchmarks", "")]
  else
    let parts := splitSlash path in
    let category := hd "" parts in
    more <- breadcrumbsFrom parts 0 "" category ;;
    Normal (("All", "") :: more).

Fixpoint sectionsOf (mode : ViewMode) (displayTitle path : string)
    (groups : list (JmhMode * list BenchmarkComparison)) : completion (list ModeSection) :=
  match groups with
  | [] => Normal []
  | (jmhMode, modeComparisons) :: rest =>
    let chartPanel :=
      match mode with
      | chart | both =>
        Some (BenchmarkChart.BenchmarkChart host modeComparisons displayTitle path jmhMode)
      | table => None
      end in
    tablePanel <-
      match mode with
      | table | both =>
        t <- BenchmarkTable.BenchmarkTable host modeComparisons displayTitle path jmhMode ;;
        Normal (Some t)
      | chart => Normal None
      end ;;
    more <- sectionsOf mode displayTitle path rest ;;
    Normal ({| modeTitle := JMH_MODE_LABELS jmhMode;
               chartPanel := chartPanel;
               tablePanel := tablePanel |} :: more)
  end.

Definition BenchmarkView (state : ViewState) (hierarchy : HierarchyNode)
    (selectedPath : string) : completion Rendered :=
  match findNode hierarchy selectedPath with
  | None => Normal (Placeholder "Select a benchmark from the sidebar to view results.")
  | Some node =>
    let comparisons := Types.comparisons node in
    let jmhModes := getUniqueJmhModes comparisons in
    breadcrumbs <- getBreadcrumbs selectedPath ;;
    displayTitle <-
      (if truthy selectedPath then
         let pathParts := splitSlash selectedPath in
         formatBreadcrumbPart (name node) (List.length pathParts - 1) (hd "" pathParts)
       else Normal (if truthy (name node) then name node else "All Benchmarks")) ;;
    let filteredComparisons :=
      match selectedJmhMode state with
      | None => comparisons
      | Some m => filterByJmhMode comparisons m
      end in
    sections <- sectionsOf (viewMode state) displayTitle
                  (if truthy selectedPath then selectedPath else "all")
                  (groupByJmhMode filteredComparisons) ;;
    Normal (Content
      {| breadcrumbs := breadcrumbs;
         title := displayTitle;
         comparisonCount := List.length comparisons;
         modeCount := List.length jmhModes;
         sections := sections;
         noBenchmarksNotice := Nat.eqb (List.length filteredComparisons) 0 |})
  end.

End WithHost.
End BenchmarkView.

(** * [components/Sidebar.tsx]

    The tree of buttons, one per node, with the number of comparisons of the
    node. Whether a node is expanded is component state: the tree lists
    every node, shown or not. *)

Module Sidebar.
Import Js Types Formatters.

Local Unset Elimination Schemes.
Inductive Entry := entry (displayName path : string) (count : nat) (below : list Entry).
Local Set Elimination Schemes.

Section WithHost.
Variable host : Host.

Definition formatNodeName (name : string) (depth : nat) (category : option string) : string :=
  match depth with
  | 0 => name
  | 1 => formatAlgorithmName host name
  | 2 =>
    match category with
    | Some "KDF" => name
    | _ => formatOperationName host name
    end
  | _ => formatVariantName host name
  end.

Fixpoint TreeNode (node : HierarchyNode) (depth : nat) (category : option string) : Entry :=
  let currentCategory := match depth with 0 => Some (name node) | _ => category end in
  entry (formatNodeName (name node) depth category) (path node)
        (List.length (comparisons node))
        ((fix each (l : list HierarchyNode) : list Entry :=
            match l with
            | [] => []
            | child :: rest => TreeNode child (S depth) currentCategory :: each rest
            end) (children node)).

(** The root button "All Benchmarks" with its count, and the top-level
    nodes. *)
Definition Sidebar (hierarchy : HierarchyNode) : Entry :=
  entry "All Benchmarks" "" (List.length (comparisons hierarchy))
        (map (fun child => TreeNode child 0 None) (children hierarchy)).

End WithHost.
End Sidebar.

(** * [com.benchmark.CryptoBenchmark]

    Java strings are sequences of UTF-16 code units; the model covers the
    units below 256 and keeps the case mappings of [Character] exact on them
    (two of them leave the range, so the mappings produce code points). *)

Module CryptoBenchmark.

Definition toUpperCase (c : N) : N :=
  if (97 <=? c)%N && (c <=? 122)%N then (c - 32)%N
  else if (c =? 181)%N then 924%N
  else if (224 <=? c)%N && (c <=? 254)%N && negb (c =? 247)%N then (c - 32)%N
  else if (c =? 255)%N then 376%N
  else c.

Definition toLowerCase (c : N) : N :=
  if (65 <=? c)%N && (c <=? 90)%N then (c + 32)%N
  else if (192 <=? c)%N && (c <=? 222)%N && negb (c =? 215)%N then (c + 32)%N
  else if (c =? 924)%N then 956%N
  else if (c =? 376)%N then 255%N
  else c.

(** One step of [String.regionMatches(true, ...)]. *)
Definition charMatchesIgnoreCase (a b : ascii) : bool :=
  let c1 := N_of_ascii a in
  let c2 := N_of_ascii b in
  if (c1 =? c2)%N then true
  else
    let u1 := toUpperCase c1 in
    let u2 := toUpperCase c2 in
    if (u1 =? u2)%N then true
    else (toLowerCase u1 =? toLowerCase u2)%N.

Fixpoint regionMatchesIgnoreCase (s t : string) : bool :=
  match s, t with
  | EmptyString, EmptyString => true
  | String a s', String b t' => charMatchesIgnoreCase a b && regionMatchesIgnoreCase s' t'
  | _, _ => false
  end.

(** [s.equalsIgnoreCase(other)]; [None] is the [null] reference. *)
Definition equalsIgnoreCase (s : string) (other : option string) : bool :=
  match other with
  | None => false
  | Some t => Nat.eqb (length s) (length t) && regionMatchesIgnoreCase s t
  end.

Inductive Provider := BouncyCastleProvider | JostleProvider.

Definition provider_eqb (a b : Provider) : bool :=
  match a, b with
  | BouncyCastleProvider, BouncyCastleProvider | JostleProvider, JostleProvider => true
  | _, _ => false
  end.

Inductive Throwable := IllegalArgumentException (message : string).

Inductive outcome (A : Type) : Type :=
| Returns (a : A)
| Throws (t : Throwable).
Arguments Returns {A} a.
Arguments Throws {A} t.

(** The values of [@Param({"BC", "Jostle"})]. *)
Definition providerNameParam : list string := ["BC"; "Jostle"].

(** The fields of the benchmark object and the providers registered with
    [java.security.Security]. *)
Record State := {
  providerName : option string;
  provider : option Provider;
  installed : list Provider
}.

(** [Security.addProvider]: appended unless already installed. *)
Definition addProvider (p : Provider) (ps : list Provider) : list Provider :=
  if existsb (provider_eqb p) ps then ps else (ps ++ [p])%list.

(** String concatenation with a reference that may be [null]. *)
Definition valueOf (o : option string) : string :=
  match o with
  | Some s => s
  | None => "null"
  end.

Definition initProvider (this : State) : outcome State :=
  let chosen :=
    if equalsIgnoreCase "BC" (providerName this) then Returns BouncyCastleProvider
    else if equalsIgnoreCase "Jostle" (providerName this) then Returns JostleProvider
    else Throws (IllegalArgumentException ("Unknown provider: " ++ valueOf (providerName this))) in
  match chosen with
  | Returns p =>
    Returns {| providerName := providerName this;
               provider := Some p;
               installed := addProvider p (installed this) |}
  | Throws t => Throws t
  end.

Definition getProvider (this : State) : option Provider := provider this.

(** ASCII lower-casing, used to state what case-insensitive means. *)
Definition lowerAscii (c : ascii) : ascii :=
  let n := nat_of_ascii c in
  if (65 <=? n)%nat && (n <=? 90)%nat then ascii_of_nat (n + 32) else c.

Fixpoint lowerString (s : string) : string :=
  match s with
  | EmptyString => EmptyString
  | String c rest => String (lowerAscii c) (lowerString rest)
  end.

End CryptoBenchmark.

(** * [data/parser.ts]: pair matcher, hierarchy builder, load

    The definitions of this module follow the specification of the pipeline,
    sections 3, 4.2, 4.3 and 7. *)

Module Parser.
Import Js Types.

(** Modelled from the spec: the join key of the pair matcher ("all
    classification fields + mode, explicitly excluding provider identity and
    the raw score fields"); [data/parser.ts] is missing. *)
Record JoinKey := {
  keyCategory : BenchmarkCategory;
  keyAlgorithm : string;
  keyOperation : string;
  keyVariant : string;
  keyMode : option string;
  keyCipherMode : option string;
  keyPadding : option string;
  keyHashAlgorithm : option string;
  keyIterations : option string;
  keyJmhMode : JmhMode
}.

(** Modelled from the spec: the join key of a classified record;
    [data/parser.ts] is missing. *)
Definition keyOfParsed (r : ParsedBenchmark) : JoinKey :=
  {| keyCategory := Parsed.category r;
     keyAlgorithm := Parsed.algorithm r;
     keyOperation := Parsed.operation r;
     keyVariant := Parsed.variant r;
     keyMode := Parsed.mode r;
     keyCipherMode := Parsed.cipherMode r;
     keyPadding := Parsed.padding r;
     keyHashAlgorithm := Parsed.hashAlgorithm r;
     keyIterations := Parsed.iterations r;
     keyJmhMode := Parsed.jmhMode r |}.

(** Modelled from the spec: the join key of a comparison entity, which
    carries the classification fields of its records; [data/parser.ts] is
    missing. *)
Definition keyOf (c : BenchmarkComparison) : JoinKey :=
  {| keyCategory := category c;
     keyAlgorithm := algorithm c;
     keyOperation := operation c;
     keyVariant := variant c;
     keyMode := mode c;
     keyCipherMode := cipherMode c;
     keyPadding := padding c;
     keyHashAlgorithm := hashAlgorithm c;
     keyIterations := iterations c;
     keyJmhMode := jmhMode c |}.

(** Equality of join keys is decidable. *)
Definition JoinKey_eq_dec (a b : JoinKey) : {a = b} + {a <> b}.
Proof.
  decide equality;
    try apply string_dec;
    try (decide equality; apply string_dec);
    decide equality.
Defined.

(** Modelled from the spec: "two records with an identical key";
    [data/parser.ts] is missing. *)
Definition sameKey (a b : JoinKey) : bool :=
  if JoinKey_eq_dec a b then true else false.

(** Modelled from the spec: the anomalies of section 7 that the pipeline
    reports without failing; [data/parser.ts] is missing. *)
Inductive Anomaly :=
| ClassificationFailure (identifier : string)
| DuplicateProviderEntry (k : JoinKey) (p : Provider)
| UnitMismatch (k : JoinKey).

(** Modelled from the spec: the comparison entity of a key seen for the
    first time, with the slot of the record's provider filled and the other
    side absent; [data/parser.ts] is missing. *)
Definition newComparison (r : ParsedBenchmark) : BenchmarkComparison :=
  let isBC := match Parsed.provider r with BC => true | Jostle => false end in
  {| id := Parsed.id r;
     category := Parsed.category r;
     algorithm := Parsed.algorithm r;
     operation := Parsed.operation r;
     variant := Parsed.variant r;
     mode := Parsed.mode r;
     cipherMode := Parsed.cipherMode r;
     padding := Parsed.padding r;
     hashAlgorithm := Parsed.hashAlgorithm r;
     iterations := Parsed.iterations r;
     jmhMode := Parsed.jmhMode r;
     bcScore := if isBC then Some (Parsed.score r) else None;
     bcError := if isBC then Some (Parsed.scoreError r) else None;
     jostleScore := if isBC then None else Some (Parsed.score r);
     jostleError := if isBC then None else Some (Parsed.scoreError r);
     scoreUnit := Parsed.scoreUnit r;
     bcRaw := if isBC then Some (Parsed.rawData r) else None;
     jostleRaw := if isBC then None else Some (Parsed.rawData r) |}.

(** Modelled from the spec: a later record of the same key takes the slot of
    its provider (last write wins); the classification fields and the unit
    of the entity stay those of the first record; [data/parser.ts] is
    missing. *)
Definition fillSlot (r : ParsedBenchmark) (c : BenchmarkComparison) : BenchmarkComparison :=
  match Parsed.provider r with
  | BC =>
    {| id := id c; category := category c; algorithm := algorithm c;
       operation := operation c; variant := variant c; mode := mode c;
       cipherMode := cipherMode c; padding := padding c;
       hashAlgorithm := hashAlgorithm c; iterations := iterations c;
       jmhMode := jmhMode c;
       bcScore := Some (Parsed.score r);
       bcError := Some (Parsed.scoreError r);
       jostleScore := jostleScore c;
       jostleError := jostleError c;
       scoreUnit := scoreUnit c;
       bcRaw := Some (Parsed.rawData r);
       jostleRaw := jostleRaw c |}
  | Jostle =>
    {| id := id c; category := category c; algorithm := algorithm c;
       operation := operation c; variant := variant c; mode := mode c;
       cipherMode := cipherMode c; padding := padding c;
       hashAlgorithm := hashAlgorithm c; iterations := iterations c;
       jmhMode := jmhMode c;
       bcScore := bcScore c;
       bcError := bcError c;
       jostleScore := Some (Parsed.score r);
       jostleError := Some (Parsed.scoreError r);
       scoreUnit := scoreUnit c;
       bcRaw := bcRaw c;
       jostleRaw := Some (Parsed.rawData r) |}
  end.

(** Modelled from the spec: whether the entity already holds a record of
    the provider; [data/parser.ts] is missing. *)
Definition slotTaken (p : Provider) (c : BenchmarkComparison) : bool :=
  match p with
  | BC => match bcScore c with Some _ => true | None => false end
  | Jostle => match jostleScore c with Some _ => true | None => false end
  end.

(** Modelled from the spec: the anomalies of merging [r] into the entity [c]
    of its key: a displaced record of the same provider, and a unit other
    than the first-seen one; [data/parser.ts] is missing. *)
Definition mergeAnomalies (r : ParsedBenchmark) (c : BenchmarkComparison) : list Anomaly :=
  ((if slotTaken (Parsed.provider r) c
    then [DuplicateProviderEntry (keyOfParsed r) (Parsed.provider r)] else []) ++
   (if Parsed.scoreUnit r =? scoreUnit c then [] else [UnitMismatch (keyOfParsed r)]))%list.

(** Modelled from the spec: one step of the pair matcher, which merges [r]
    into the entity of its key or appends a new entity; [data/parser.ts] is
    missing. *)
Fixpoint mergeRecord (r : ParsedBenchmark) (cs : list BenchmarkComparison)
  : list BenchmarkComparison * list Anomaly :=
  match cs with
  | [] => ([newComparison r], [])
  | c :: rest =>
    if sameKey (keyOfParsed r) (keyOf c) then (fillSlot r c :: rest, mergeAnomalies r c)
    else
      let '(rest', anomalies) := mergeRecord r rest in
      (c :: rest', anomalies)
  end.

(** Modelled from the spec: the pair matcher of section 4.2, run over the
    records in input order; [data/parser.ts] is missing. *)
Fixpoint pairMatchFrom (rs : list ParsedBenchmark)
    (acc : list BenchmarkComparison * list Anomaly)
  : list BenchmarkComparison * list Anomaly :=
  match rs with
  | [] => acc
  | r :: rest =>
    let '(cs, anomalies) := mergeRecord r (fst acc) in
    pairMatchFrom rest (cs, (snd acc ++ anomalies)%list)
  end.

(** Modelled from the spec: the pair matcher on one load, from no entities
    and no anomalies; [data/parser.ts] is missing. *)
Definition pairMatch (rs : list ParsedBenchmark)
  : list BenchmarkComparison * list Anomaly :=
  pairMatchFrom rs ([], []).

(** A sub-field as a path segment, when it is present. *)
Definition present (o : option string) : list string :=
  match o with
  | Some s => [s]
  | None => []
  end.

(** Modelled from the spec: the path of an entity, "[category, algorithm,
    operation-or-hash-algorithm, variant, ...any further sub-fields
    present]"; [data/parser.ts] is missing. *)
Definition pathSegments (c : BenchmarkComparison) : list string :=
  categoryName (category c) :: algorithm c ::
  match category c with
  | KDF =>
    (match hashAlgorithm c with Some h => h | None => operation c end
     :: variant c :: present (iterations c))%list
  | Symmetric =>
    (operation c :: variant c :: present (cipherMode c) ++ present (padding c))%list
  | PQC => [operation c; variant c]
  end.

(** Modelled from the spec: the path string, the segments joined with
    slashes; [data/parser.ts] is missing. *)
Definition pathOf (segments : list string) : string := join "/" segments.


(** Modelled from the spec: the step at one node, "for each prefix, insert
    an intermediate node if absent": the child with the path [target]
    continues the walk, or a new child is added after its siblings;
    [data/parser.ts] is missing. *)
Fixpoint updateChild (target : string) (continue : HierarchyNode -> HierarchyNode)
    (fresh : HierarchyNode) (siblings : list HierarchyNode) : list HierarchyNode :=
  match siblings with
  | [] => [continue fresh]
  | child :: more =>
    if path child =? target then continue child :: more
    else child :: updateChild target continue fresh more
  end.

(** Modelled from the spec: insertion of one entity, which walks the path
    from the root segment by segment and appends the entity to the
    [comparisons] of every node on the way, the node of its full path
    included; [data/parser.ts] is missing. *)
Fixpoint insertAt (prefix segments : list string) (c : BenchmarkComparison)
    (node : HierarchyNode) {struct segments} : HierarchyNode :=
  mkNode (name node) (path node)
    match segments with
    | [] => children node
    | s :: rest =>
      let here := (prefix ++ [s])%list in
      updateChild (pathOf here) (insertAt here rest c)
        (mkNode s (pathOf here) [] []) (children node)
    end
    (comparisons node ++ [c])%list.

(** Modelled from the spec: the root, with the empty path; [data/parser.ts]
    is missing. *)
Definition emptyRoot : HierarchyNode := mkNode "" "" [] [].

(** Modelled from the spec: the hierarchy builder of section 4.3;
    [data/parser.ts] is missing. *)
Definition buildHierarchy (cs : list BenchmarkComparison) : HierarchyNode :=
  fold_left (fun root c => insertAt [] (pathSegments c) c root) cs emptyRoot.

(** Modelled from the spec: what a load hands to its caller, "a usable
    (possibly empty) hierarchy plus a list of anomalies"; [data/parser.ts]
    is missing. *)
Record LoadResult := {
  hierarchy : HierarchyNode;
  anomalies : list Anomaly
}.

Section WithClassifier.
(** The classifier of section 4.1; the pipeline below takes it as given. *)
Variable classify : JmhBenchmarkResult -> option ParsedBenchmark.

(** Modelled from the spec: classification of every record, dropping and
    counting the ones that fail; [data/parser.ts] is missing. *)
Fixpoint classifyAll (records : list JmhBenchmarkResult)
  : list ParsedBenchmark * list Anomaly :=
  match records with
  | [] => ([], [])
  | r :: rest =>
    let '(parsed, failures) := classifyAll rest in
    match classify r with
    | Some p => (p :: parsed, failures)
    | None => (parsed, ClassificationFailure (Jmh.benchmark r) :: failures)
    end
  end.

(** Modelled from the spec: one load, "RawRecord -> Classifier ->
    Pair-Matcher -> Hierarchy Builder"; [data/parser.ts] is missing. *)
Definition load (records : list JmhBenchmarkResult) : LoadResult :=
  let '(parsed, failures) := classifyAll records in
  let '(cs, found) := pairMatch parsed in
  {| hierarchy := buildHierarchy cs; anomalies := (failures ++ found)%list |}.

End WithClassifier.

(** A string without a slash. *)
Fixpoint slashFree (s : string) : bool :=
  match s with
  | EmptyString => true
  | String c rest => negb (Ascii.eqb c "/") && slashFree rest
  end.

(** [sp] is a prefix of [segments]. *)
Fixpoint isPrefixOf (sp segments : list string) : bool :=
  match sp, segments with
  | [], _ => true
  | a :: sp', b :: segments' => (a =? b) && isPrefixOf sp' segments'
  | _ :: _, [] => false
  end.

End Parser.

(** * A reference host and sample data

    One possible engine, used to run the definitions on concrete inputs:
    [Math.log10] of a positive finite number is taken to its integer part,
    [Math.pow(10, n)] is the correctly rounded power for an integer [n], and
    [toUpperCase] acts on ASCII letters. *)

Module Sample.
Import Js Types.

(** The integer part of the decimal logarithm of a positive finite number. *)
Definition log10 (x : number) : number :=
  match x with
  | S754_finite false m e => ofZ (decimalExponent m e - 1)
  | S754_zero _ => S754_infinity true
  | S754_infinity false => S754_infinity false
  | _ => S754_nan
  end.

(** The value of an integer-valued number. *)
Definition integerValue (x : number) : option Z :=
  match x with
  | S754_zero _ => Some 0%Z
  | S754_finite s m e =>
    match e with
    | Zneg k => if (Zpos m mod 2 ^ Zpos k =? 0)%Z
                then Some ((if s then -1 else 1) * (Zpos m / 2 ^ Zpos k))%Z else None
    | _ => Some ((if s then -1 else 1) * (Zpos m * 2 ^ e))%Z
    end
  | _ => None
  end.

(** Powers with an integer base and exponent, correctly rounded; NaN
    elsewhere. *)
Definition pow (b x : number) : number :=
  match integerValue b, integerValue x with
  | Some b, Some n =>
    if (0 <=? n)%Z then binary_normalize prec emax (b ^ n) 0 false
    else div (ofZ 1) (binary_normalize prec emax (b ^ (- n)) 0 false)
  | _, _ => S754_nan
  end.

Definition upperAscii (c : ascii) : ascii :=
  let n := nat_of_ascii c in
  if (97 <=? n)%nat && (n <=? 122)%nat then ascii_of_nat (n - 32) else c.

Fixpoint upper (s : string) : string :=
  match s with
  | EmptyString => EmptyString
  | String c rest => String (upperAscii c) (upper rest)
  end.

(** The text of an inherited member: the prototype object, or a built-in
    function. *)
Definition nativeText (key : string) : string :=
  if key =? "__proto__" then "[object Object]"
  else "function " ++ key ++ "() { [native code] }".

Definition host : Host :=
  {| Math_log10 := log10;
     Math_pow := pow;
     toUpperCase := upper;
     inheritedToString := nativeText |}.

(** On a string without escapes [decodeURIComponent] is the identity. *)
Definition decodeURIComponent (s : string) : completion string := Normal s.

Definition mode_eqb := BenchmarkView.mode_eqb.

(** Stand-ins for the two helpers [BenchmarkView] imports from
    [data/parser]: the comparisons of one mode, and the modes in order of
    first appearance. *)
Definition filterByJmhMode (cs : list BenchmarkComparison) (m : JmhMode)
  : list BenchmarkComparison :=
  filter (fun c => mode_eqb (jmhMode c) m) cs.

Definition getUniqueJmhModes (cs : list BenchmarkComparison) : list JmhMode :=
  map fst (BenchmarkView.groupByJmhMode cs).

(** A comparison with the given category, variant, sub-fields and scores. *)
Definition comparison (cat : BenchmarkCategory) (alg op var : string)
    (cm pad hash iter : option string) (bc jo : option number) : BenchmarkComparison :=
  {| id := alg ++ "." ++ op ++ "." ++ var;
     category := cat; algorithm := alg; operation := op; variant := var;
     mode := None; cipherMode := cm; padding := pad;
     hashAlgorithm := hash; iterations := iter; jmhMode := thrpt;
     bcScore := bc; bcError := None; jostleScore := jo; jostleError := None;
     scoreUnit := "ops/s"; bcRaw := None; jostleRaw := None |}.

Definition aesCbc (bc jo : option number) : BenchmarkComparison :=
  comparison Symmetric "Aes" "encrypt" "default" (Some "CBC") (Some "PKCS5Padding")
             None None bc jo.


Definition pbkdf2 (bc jo : option number) : BenchmarkComparison :=
  comparison KDF "Pbkdf2" "deriveKey" "default" None None (Some "SHA256") (Some "10000")
             bc jo.

Definition metric (s : number) (u : string) : Jmh.JmhPrimaryMetric :=
  {| Jmh.score := s; Jmh.scoreError := ofZ 1; Jmh.scoreUnit := u |}.

Definition rawResult (p : string) (s : number) (u : string) : JmhBenchmarkResult :=
  {| Jmh.benchmark := "com.benchmark.AesBenchmark.encrypt";
     Jmh.mode := thrpt;
     Jmh.params := [("providerName", p)];
     Jmh.primaryMetric := metric s u |}.

(** A classified AES record of one provider. *)
Definition aesRecord (p : Provider) (s : number) (u : string) : ParsedBenchmark :=
  {| Parsed.id := "Aes.encrypt";
     Parsed.category := Symmetric; Parsed.algorithm := "Aes";
     Parsed.operation := "encrypt"; Parsed.variant := "default";
     Parsed.mode := None; Parsed.cipherMode := Some "CBC";
     Parsed.padding := Some "PKCS5Padding";
     Parsed.hashAlgorithm := None; Parsed.iterations := None;
     Parsed.jmhMode := thrpt; Parsed.provider := p;
     Parsed.score := s; Parsed.scoreError := ofZ 1; Parsed.scoreUnit := u;
     Parsed.rawData := rawResult (match p with BC => "BC" | Jostle => "Jostle" end) s u |}.

End Sample.

(** * Predicates used in the statements *)

Module Props.
Import Js Types.

Definition isDigit (c : ascii) : bool :=
  (48 <=? nat_of_ascii c)%nat && (nat_of_ascii c <=? 57)%nat.

(** A string that starts with a decimal digit. *)
Definition headDigit (s : string) : Prop :=
  match s with
  | String c _ => isDigit c = true
  | EmptyString => False
  end.

(** A string that no continuation turns into ["N/A"]: it is not empty, and
    if it starts with [N] it goes on with [a]. *)
Definition neverNA (s : string) : Prop :=
  match s with
  | String c rest => c <> "N"%char \/ exists r, rest = String "a" r
  | EmptyString => False
  end.


(** The test of [formatScoreValue], in words: at least 1000, or strictly
    between 0 and 0.01. *)
Definition scientificRange (v : number) : bool :=
  ge v (ofZ 1000) || (gt v (ofZ 0) && lt v (div (ofZ 1) (ofZ 100))).

(** A string in power-of-ten notation: digits, the sign of multiplication,
    ten and its exponent. *)
Definition powerOfTenNotation (s : string) : Prop :=
  exists mantissa exponent, s = mantissa ++ " × 10" ++ exponent.




(** A check over all 256 code units. *)
Definition allAscii (f : ascii -> bool) : bool :=
  forallb (fun n => f (ascii_of_nat n)) (seq 0 256).

Definition isAsciiLetter (c : ascii) : bool :=
  let n := nat_of_ascii c in
  ((65 <=? n)%nat && (n <=? 90)%nat) || ((97 <=? n)%nat && (n <=? 122)%nat).

Fixpoint allLetters (s : string) : bool :=
  match s with
  | EmptyString => true
  | String c rest => isAsciiLetter c && allLetters rest
  end.

(** ** The pair matcher *)

Definition slotScore (p : Provider) (e : BenchmarkComparison) : option number :=
  match p with
  | BC => bcScore e
  | Jostle => jostleScore e
  end.

Definition slotError (p : Provider) (e : BenchmarkComparison) : option number :=
  match p with
  | BC => bcError e
  | Jostle => jostleError e
  end.

Definition slotRaw (p : Provider) (e : BenchmarkComparison) : option JmhBenchmarkResult :=
  match p with
  | BC => bcRaw e
  | Jostle => jostleRaw e
  end.

(** The side of provider [p], when present, holds the score, error and raw
    result of a record of [p] among [rs] whose classification is that of the
    entity, and whose unit is the unit of the entity unless a mismatch was
    reported for the key. *)
Definition sideFrom (p : Provider) (rs : list ParsedBenchmark)
    (anomalies : list Parser.Anomaly) (e : BenchmarkComparison) : Prop :=
  forall s, slotScore p e = Some s ->
    exists r, In r rs /\ Parsed.provider r = p /\
      Parser.keyOfParsed r = Parser.keyOf e /\
      Parsed.score r = s /\
      slotError p e = Some (Parsed.scoreError r) /\
      slotRaw p e = Some (Parsed.rawData r) /\
      (Parsed.scoreUnit r = scoreUnit e \/
       In (Parser.UnitMismatch (Parser.keyOf e)) anomalies).

(** The unit of the entity is the unit of the first record of its key. *)
Definition firstSeenUnit (rs : list ParsedBenchmark) (e : BenchmarkComparison) : Prop :=
  exists before r after,
    rs = (before ++ r :: after)%list /\
    (forall x, In x before -> Parser.keyOfParsed x <> Parser.keyOf e) /\
    Parser.keyOfParsed r = Parser.keyOf e /\
    scoreUnit e = Parsed.scoreUnit r.

(** What the pair matcher maintains for the records [rs] seen so far. *)
Definition matched (rs : list ParsedBenchmark)
    (out : list BenchmarkComparison * list Parser.Anomaly) : Prop :=
  (forall r, In r rs -> exists e, In e (fst out) /\ Parser.keyOf e = Parser.keyOfParsed r) /\
  (forall e, In e (fst out) ->
     (bcScore e <> None \/ jostleScore e <> None) /\
     sideFrom BC rs (snd out) e /\
     sideFrom Jostle rs (snd out) e /\
     firstSeenUnit rs e).

(** ** The hierarchy *)

(** The entities whose path runs through the node of the segments [sp]. *)
Definition through (sp : list string) (c : BenchmarkComparison) : bool :=
  Parser.isPrefixOf sp (Parser.pathSegments c).

(** Every segment of the path of the entity is free of slashes. *)
Definition slashFreePath (c : BenchmarkComparison) : Prop :=
  Forall (fun s => Parser.slashFree s = true) (Parser.pathSegments c).

(** The node reached from the root by the segments [sp], in the tree built
    from the entities [cs]. *)
Local Unset Elimination Schemes.
Inductive nodeAt (cs : list BenchmarkComparison) : list string -> HierarchyNode -> Prop :=
| nodeAt_intro : forall sp nm pth chs comps,
    pth = Parser.pathOf sp ->
    comps = filter (through sp) cs ->
    Forall (fun s => Parser.slashFree s = true) sp ->
    NoDup (map name chs) ->
    (forall c s rest, In c cs -> Parser.pathSegments c = (sp ++ s :: rest)%list ->
       exists ch, In ch chs /\ name ch = s) ->
    Forall (fun ch => nodeAt cs (sp ++ [name ch])%list ch) chs ->
    nodeAt cs sp (mkNode nm pth chs comps).
Local Set Elimination Schemes.

(** ** Fixed-point notation *)




End Props.


(** * [data/export.ts]

    [formatFilename], on strings of code units below 256; the regular
    expressions have no [u] flag and work on code units. [downloadAsPng]
    draws on the page and is left out. *)

Module Exports.
Import Js Types.

Fixpoint mapUnits (f : ascii -> ascii) (s : string) : string :=
  match s with
  | EmptyString => EmptyString
  | String c rest => String (f c) (mapUnits f rest)
  end.

(** The class [[a-zA-Z0-9-]]. *)
Definition isFileChar (c : ascii) : bool :=
  let n := nat_of_ascii c in
  ((97 <=? n)%nat && (n <=? 122)%nat) || ((65 <=? n)%nat && (n <=? 90)%nat) ||
  ((48 <=? n)%nat && (n <=? 57)%nat) || (n =? 45)%nat.

(** [.replace(/\//g, '-')]. *)
Definition slashToDash (c : ascii) : ascii :=
  if Ascii.eqb c "/" then "-"%char else c.

(** [.replace(/[^a-zA-Z0-9-]/g, '_')]. *)
Definition unsafeToUnderscore (c : ascii) : ascii :=
  if isFileChar c then c else "_"%char.

(** [.toLowerCase()], which on the letters that are left after the two
    replacements is the ASCII mapping. *)
Definition lowerUnit (c : ascii) : ascii :=
  let n := nat_of_ascii c in
  if (65 <=? n)%nat && (n <=? 90)%nat then ascii_of_nat (n + 32) else c.

Definition base (path : string) : string :=
  mapUnits lowerUnit (mapUnits unsafeToUnderscore (mapUnits slashToDash path)).

(** [now] is [new Date().toISOString()]; [suffix] is optional. *)
Definition formatFilename (now : string) (path : string) (suffix : option string) : string :=
  let timestamp := substring 0 10 now in
  match suffix with
  | Some s =>
    if truthy s then "jmh-" ++ base path ++ "-" ++ s ++ "-" ++ timestamp
    else "jmh-" ++ base path ++ "-" ++ timestamp
  | None => "jmh-" ++ base path ++ "-" ++ timestamp
  end.

(** A [JmhMode] as the string it is. *)
Definition modeKey (m : JmhMode) : string :=
  match m with
  | thrpt => "thrpt"
  | avgt => "avgt"
  | ss => "ss"
  | sample => "sample"
  end.

(** The file names [handleExport] asks for in [BenchmarkChart] and in
    [BenchmarkTable]. *)
Definition chartExportName (now path : string) (jmhMode : JmhMode) : string :=
  formatFilename now path (Some (modeKey jmhMode)).

Definition tableExportName (now path : string) (jmhMode : JmhMode) : string :=
  formatFilename now path (Some (modeKey jmhMode ++ "-table")).

End Exports.

(** * [components/Sidebar.tsx]: the state of a tree node *)

Module TreeNodeState.
Import Js Types.

Definition hasChildren (node : HierarchyNode) : bool :=
  (0 <? List.length (children node))%nat.

Definition isSelected (selectedPath : string) (node : HierarchyNode) : bool :=
  selectedPath =? path node.

Definition isParentOfSelected (selectedPath : string) (node : HierarchyNode) : bool :=
  startsWith selectedPath (path node ++ "/").

(** The initial value of [expanded]. *)
Definition initiallyExpanded (depth : nat) (selectedPath : string)
    (node : HierarchyNode) : bool :=
  (depth <? 2)%nat || startsWith selectedPath (path node).

(** [handleClick]: the path handed to [onSelect], and [expanded] after the
    click. *)
Definition handleClick (node : HierarchyNode) (expanded : bool) : string * bool :=
  (path node, if hasChildren node then negb expanded else expanded).

(** The paths the buttons of the sidebar hand to [onSelect]. *)
Fixpoint entryPaths (e : Sidebar.Entry) : list string :=
  match e with
  | Sidebar.entry _ p _ below =>
    p :: (fix each (l : list Sidebar.Entry) : list string :=
            match l with
            | [] => []
            | x :: rest => (entryPaths x ++ each rest)%list
            end) below
  end.

End TreeNodeState.

(** * [App.tsx]

    The component state and its three renderings. The promise of
    [loadBenchmarkData] settles once, while [loading] is still set; a path is
    selected through the sidebar, which is there only when the views are. *)

Module App.
Import Js Types.

Record State := {
  hierarchy : option HierarchyNode;
  selectedPath : string;
  loading : bool;
  error : option string
}.

Definition initial : State :=
  {| hierarchy := None; selectedPath := ""; loading := true; error := None |}.

Inductive Rendered :=
| Loading
| Error (message : string)
| Views (hierarchy : HierarchyNode) (selectedPath : string).

Definition render (s : State) : Rendered :=
  if loading s then Loading
  else
    match error s, hierarchy s with
    | Some e, _ => if truthy e then Error e
                   else match hierarchy s with
                        | Some h => Views h (selectedPath s)
                        | None => Error "Unknown error occurred"
                        end
    | None, None => Error "Unknown error occurred"
    | None, Some h => Views h (selectedPath s)
    end.

Definition failureMessage : string :=
  "Failed to load benchmark data. Run benchmarks first with: ./scripts/run_benchmarks.sh".

Inductive Event :=
| Resolved (h : HierarchyNode)
| Rejected
| Select (path : string).

(** The state after an event; an event that cannot occur in the state leaves
    it as it is. *)
Definition step (s : State) (e : Event) : State :=
  match e with
  | Resolved h =>
    if loading s
    then {| hierarchy := Some h; selectedPath := selectedPath s;
            loading := false; error := error s |}
    else s
  | Rejected =>
    if loading s
    then {| hierarchy := hierarchy s; selectedPath := selectedPath s;
            loading := false; error := Some failureMessage |}
    else s
  | Select p =>
    match render s with
    | Views _ _ =>
      {| hierarchy := hierarchy s; selectedPath := p;
         loading := loading s; error := error s |}
    | _ => s
    end
  end.

Definition run (events : list Event) : State := fold_left step events initial.

End App.

(** * Predicates on code units *)

Module Units.

Fixpoint allUnits (p : ascii -> bool) (s : string) : bool :=
  match s with
  | EmptyString => true
  | String c rest => p c && allUnits p rest
  end.

(** A lower-case letter, a digit, a hyphen or an underscore. *)
Definition isSafeUnit (c : ascii) : bool :=
  let n := nat_of_ascii c in
  ((97 <=? n)%nat && (n <=? 122)%nat) || ((48 <=? n)%nat && (n <=? 57)%nat) ||
  (n =? 45)%nat || (n =? 95)%nat.

(** An ASCII digit or sign. *)
Definition isPlainDigitOrSign (c : ascii) : bool :=
  let n := nat_of_ascii c in
  ((48 <=? n)%nat && (n <=? 57)%nat) || (n =? 43)%nat || (n =? 45)%nat.

(** A name that is none of the members every object inherits. *)
Definition ownName (name : string) : bool :=
  negb (existsb (String.eqb name) Js.objectPrototypeKeys).

End Units.

(** * Predicates on trees and paths *)

Module Paths.
Import Js Types.

(** The nodes of a tree, the root first. *)
Fixpoint nodes (h : HierarchyNode) : list HierarchyNode :=
  h :: (fix each (l : list HierarchyNode) : list HierarchyNode :=
          match l with
          | [] => []
          | child :: rest => (nodes child ++ each rest)%list
          end) (children h).

(** No two nodes of the tree have the same path. *)
Definition uniquePaths (h : HierarchyNode) : Prop := NoDup (map path (nodes h)).

(** [crumb] is [path] itself, or a path that [path] continues after a
    slash. *)
Definition leadsTo (crumb path : string) : Prop :=
  crumb = path \/ startsWith path (crumb ++ "/") = true.

Definition decodes (decode : string -> completion string) (part : string) : Prop :=
  exists decoded, decode part = Normal decoded.

(** The values [currentPath] takes in the loop of [getBreadcrumbs]. *)
Fixpoint pathsFrom (currentPath : string) (parts : list string) : list string :=
  match parts with
  | [] => []
  | part :: rest =>
    let currentPath := if truthy currentPath then currentPath ++ "/" ++ part else part in
    currentPath :: pathsFrom currentPath rest
  end.

End Paths.

(** * A decoder for the examples *)

Module Decoder.
Import Js.

(** [decodeURIComponent] on strings that hold no valid escape: a percent
    sign that starts no escape is malformed, and any other string is left
    as it is. *)
Definition decodePlain (s : string) : completion string :=
  if Units.allUnits (fun c => negb (Ascii.eqb c "%")) s then Normal s
  else Throw URIError.

End Decoder.

(** * Predicates on the events of the application *)

Module Events.

Definition isSelect (e : App.Event) : bool :=
  match e with
  | App.Select _ => true
  | _ => false
  end.

(** The paths selected by the events, in order. *)
Fixpoint selections (events : list App.Event) : list string :=
  match events with
  | [] => []
  | App.Select p :: rest => p :: selections rest
  | _ :: rest => selections rest
  end.

End Events.
(** * Facts about the JavaScript fragment *)

Import Js Types Props.

Lemma headDigit_neverNA s : headDigit s -> neverNA s.
Proof.
  destruct s as [|c rest]; simpl; [tauto|].
  intros H. left. intros ->. discriminate H.
Qed.

Lemma neverNA_app s t : neverNA s -> s ++ t <> "N/A".
Proof.
  destruct s as [|c rest]; simpl; [tauto|].
  intros [Hc | [r ->]] Heq.
  - injection Heq as Hc' _. contradiction.
  - simpl in Heq. discriminate Heq.
Qed.


Lemma headDigit_app s t : headDigit s -> headDigit (s ++ t).
Proof. destruct s; simpl; tauto. Qed.

Lemma string_of_uint_head d :
  NilEmpty.string_of_uint d = "" \/ headDigit (NilEmpty.string_of_uint d).
Proof. destruct d; simpl; auto. Qed.

Lemma digits_head n : headDigit (digits n).
Proof.
  unfold digits, NilZero.string_of_uint.
  destruct (N.to_uint (Z.to_N n)) eqn:E; simpl; reflexivity.
Qed.

Lemma substring_head k s : headDigit s -> headDigit (substring 0 (S k) s).
Proof. destruct s; simpl; tauto. Qed.

Lemma zeros_app_head k s : headDigit s -> headDigit (zeros k ++ s).
Proof. destruct k; simpl; auto. Qed.

Lemma length_append (s t : string) : length (s ++ t) = (length s + length t)%nat.
Proof. induction s; simpl; auto. Qed.

Lemma length_zeros k : length (zeros k) = k.
Proof. induction k; simpl; auto. Qed.

Lemma fixedDigits_head n f : headDigit (fixedDigits n f).
Proof.
  unfold fixedDigits. destruct f as [|f]; [apply digits_head|].
  pose proof (digits_head n) as Hd.
  set (m := digits n) in *.
  destruct (Nat.leb_spec (length m) (S f)) as [Hle | Hgt].
  - assert (Hlen : length (zeros (S f + 1 - length m) ++ m) = S (S f)).
    { rewrite length_append, length_zeros.
      destruct m; [contradiction|]. simpl in *. lia. }
    rewrite Hlen. replace (S (S f) - S f)%nat with 1%nat by lia.
    apply headDigit_app, substring_head, zeros_app_head, Hd.
  - destruct (length m - S f)%nat eqn:E; [lia|].
    apply headDigit_app, substring_head, Hd.
Qed.

Lemma positiveToString_head m e : headDigit (positiveToString m e).
Proof.
  unfold positiveToString.
  destruct (shortest m e) as [s n].
  pose proof (digits_head s) as Hd.
  set (ds := digits s) in *.
  destruct ((Z.of_nat (length ds) <=? n)%Z && (n <=? 21)%Z);
    [apply headDigit_app, Hd|].
  destruct ((0 <? n)%Z && (n <=? 21)%Z) eqn:E1.
  - apply andb_prop in E1 as [E1 _]. apply Z.ltb_lt in E1.
    destruct (Z.to_nat n) eqn:E; [lia|].
    apply headDigit_app, substring_head, Hd.
  - destruct ((-6 <? n)%Z && (n <=? 0)%Z); [reflexivity|].
    destruct (Z.of_nat (length ds) =? 1)%Z.
    + apply headDigit_app, Hd.
    + apply headDigit_app. apply (substring_head 0), Hd.
Qed.

(** [toFixed] with a digit count in 0..100 returns, and what it returns can
    never be mistaken for ["N/A"]. *)
Lemma toFixed_returns x d :
  (0 <= d <= 100)%Z -> exists s, toFixed x d = Normal s /\ neverNA s.
Proof.
  intros Hd. unfold toFixed.
  replace ((d <? 0)%Z || (100 <? d)%Z) with false
    by (symmetry; apply orb_false_intro; [apply Z.ltb_ge | apply Z.ltb_ge]; lia).
  eexists. split; [reflexivity|].
  destruct x as [s | s | | s m e].
  - apply headDigit_neverNA, fixedDigits_head.
  - destruct s; simpl; left; discriminate.
  - simpl. right. eexists. reflexivity.
  - destruct s.
    + simpl. left. discriminate.
    + simpl. apply headDigit_neverNA.
      destruct (atLeast1e21 m e);
        [apply positiveToString_head | apply fixedDigits_head].
Qed.

(** ** Comparisons *)



(** ** The characters [toFixed] produces *)










(** ** The shape of fixed-point output *)









(** * The formatters *)

Section FormatterFacts.
Variable host : Host.
Import Formatters.


Lemma formatPowerOfTen_returns v :
  exists s, formatPowerOfTen host v None = Normal s /\
            powerOfTenNotation s /\ s <> "N/A".
Proof.
  unfold formatPowerOfTen.
  set (mantissa := div v _).
  destruct (toFixed_returns mantissa 4 ltac:(lia)) as (d & Hd & Hna).
  rewrite Hd. simpl. eexists. split; [reflexivity|]. split.
  - eexists _, _. reflexivity.
  - now apply neverNA_app.
Qed.

Lemma formatScoreValue_returns value :
  exists s, formatScoreValue host value None = Normal s.
Proof.
  destruct value as [v|]; simpl; [|eauto].
  destruct (_ || _).
  - destruct (formatPowerOfTen_returns v) as (s & Hs & _). eauto.
  - destruct (toFixed_returns v 4 ltac:(lia)) as (s & Hs & _). eauto.
Qed.

Lemma formatErrorMargin_returns value :
  exists s, formatErrorMargin host value = Normal s.
Proof.
  destruct value as [v|]; simpl; [|eauto].
  destruct (formatScoreValue_returns (Some v)) as (s & Hs).
  simpl in Hs. rewrite Hs. simpl. eauto.
Qed.

Lemma formatRatio_returns value : exists s, formatRatio value None = Normal s.
Proof.
  destruct value as [v|]; unfold formatRatio; [|eauto].
  destruct (toFixed_returns v 2 ltac:(lia)) as (s & Hs & _).
  rewrite Hs. simpl. eauto.
Qed.


End FormatterFacts.


(** * The ratio and the winner *)

Section RatioFacts.
Variable host : Host.
Import Formatters.

(** The ratio is derived from the two scores when a row is rendered. *)
Lemma rowRatio_spec c :
  BenchmarkTable.rowRatio c =
    match bcScore c, jostleScore c with
    | Some bc, Some jostle => Some (div jostle bc)
    | _, _ => None
    end.
Proof. reflexivity. Qed.

(** With a side absent the ratio cell reads ["N/A"]. *)
Lemma ratioText_absent c :
  bcScore c = None \/ jostleScore c = None ->
  BenchmarkTable.ratioText c = Normal "N/A".
Proof.
  unfold BenchmarkTable.ratioText, BenchmarkTable.rowRatio.
  intros [-> | ->]; [|destruct (bcScore c)]; reflexivity.
Qed.

(** Rendering the ratio never throws. *)
Lemma ratioText_returns c : exists s, BenchmarkTable.ratioText c = Normal s.
Proof. apply formatRatio_returns. Qed.

(** A row of the table is always rendered; its cells are the formatted
    scores and the ratio. *)
Lemma row_returns jmhMode context c :
  exists r, BenchmarkTable.row host jmhMode context c = Normal r /\
    BenchmarkTable.winner r = fst (BenchmarkTable.rowWinner jmhMode c) /\
    BenchmarkTable.ratioText c = Normal (BenchmarkTable.ratioCell r).
Proof.
  unfold BenchmarkTable.row.
  destruct (BenchmarkTable.rowWinner jmhMode c) as [w k].
  destruct (formatScoreValue_returns host (bcScore c)) as (s1 & ->).
  destruct (formatErrorMargin_returns host (bcError c)) as (s2 & ->).
  destruct (formatScoreValue_returns host (jostleScore c)) as (s3 & ->).
  destruct (formatErrorMargin_returns host (jostleError c)) as (s4 & ->).
  destruct (ratioText_returns c) as (s5 & ->).
  simpl. eexists. repeat split.
Qed.

Lemma rows_returns jmhMode context cs :
  exists rs, BenchmarkTable.rows host jmhMode context cs = Normal rs.
Proof.
  induction cs as [|c cs [rs IH]]; simpl; [eauto|].
  destruct (row_returns jmhMode context c) as (r & -> & _).
  rewrite IH. simpl. eauto.
Qed.

(** The table never throws. *)
Lemma BenchmarkTable_returns comparisons title path jmhMode :
  exists t, BenchmarkTable.BenchmarkTable host comparisons title path jmhMode = Normal t.
Proof.
  unfold BenchmarkTable.BenchmarkTable. destruct comparisons as [|c cs]; [eauto|].
  destruct (rows_returns jmhMode (Label.labelContext (c :: cs)) (c :: cs)) as (rs & ->).
  simpl. eauto.
Qed.

Lemma tooltipRatio_returns data :
  match BenchmarkChart.tooltipRatio data with
  | Some r => exists s, r = Normal s
  | None => BenchmarkChart.bc data = None \/ BenchmarkChart.jostle data = None
  end.
Proof.
  unfold BenchmarkChart.tooltipRatio.
  destruct (BenchmarkChart.bc data) as [b|]; [|now left].
  destruct (BenchmarkChart.jostle data) as [j|]; [|now right].
  destruct (toFixed_returns (div j b) 3 ltac:(lia)) as (s & Hs & _).
  rewrite Hs. simpl. eauto.
Qed.

(** C1, at the failing input: with a BC score of 0 and a Jostle score of 5
    both sides are present, the quotient is +Infinity, and the ratio cell of
    the table and the ratio line of the tooltip read ["Infinityx"] instead
    of ["N/A"]; with both scores 0 they read ["NaNx"]. *)
Theorem ratio_zero_divisor :
  let context := {| Label.hasMultipleAlgorithms := false;
                    Label.hasMultipleOperations := false |} in
  let c := Sample.aesCbc (Some (ofZ 0)) (Some (ofZ 5)) in
  let z := Sample.aesCbc (Some (ofZ 0)) (Some (ofZ 0)) in
  BenchmarkTable.rowRatio c = Some (S754_infinity false) /\
  BenchmarkTable.ratioText c = Normal "Infinityx" /\
  BenchmarkChart.tooltipRatio (BenchmarkChart.chartPoint host thrpt context c)
    = Some (Normal "Infinityx") /\
  (exists r, BenchmarkTable.row host thrpt context c = Normal r /\
             BenchmarkTable.ratioCell r = "Infinityx") /\
  BenchmarkTable.ratioText z = Normal "NaNx" /\
  BenchmarkChart.tooltipDiffPercent (BenchmarkChart.chartPoint host thrpt context c)
    = Normal "".
Proof.
  repeat split. eexists. split; reflexivity.
Qed.

End RatioFacts.

(** * Lookup by path *)

Import BenchmarkView.

Lemma InTree_inv n name path children comparisons :
  InTree n (mkNode name path children comparisons) ->
  n = mkNode name path children comparisons \/
  exists child, In child children /\ InTree n child.
Proof.
  intros H. inversion H; subst; [now left | right; eauto].
Qed.

Lemma InTree_trans a b c : InTree a b -> InTree b c -> InTree a c.
Proof.
  intros Hab Hbc. induction Hbc; [assumption|].
  eapply InTree_child; eauto.
Qed.

(** Below the root test, [findNode] is a pre-order search: what it returns is
    a node of the tree with the path asked for, and it returns nothing only
    if no node has that path. *)
Lemma findNode_search h : forall p,
  p <> "" ->
  match findNode h p with
  | Some n => InTree n h /\ path n = p
  | None => forall n, InTree n h -> path n <> p
  end.
Proof.
  induction h as [nm pth cs comps IH] using HierarchyNode_ind.
  intros p Hp. simpl.
  destruct (String.eqb_spec p "") as [-> | _]; [contradiction|]. simpl.
  destruct (String.eqb_spec p pth) as [-> | Hne].
  - split; [constructor | reflexivity].
  - match goal with
    | |- match ?loop cs with _ => _ end =>
      assert (Hloop :
        match loop cs with
        | Some n => (exists child, In child cs /\ InTree n child) /\ path n = p
        | None => forall child n, In child cs -> InTree n child -> path n <> p
        end)
    end.
    { induction cs as [|child rest IHrest]; [intros ? ? []|].
      inversion IH as [|? ? Hchild Hrest]; subst.
      destruct (String.eqb_spec (path child) p) as [Heq | Hne'].
      - split; [|exact Heq]. exists child. split; [now left | constructor].
      - specialize (Hchild p Hp).
        destruct (findNode child p) as [found|].
        + destruct Hchild as [Hin Hpath]. split; [|exact Hpath].
          exists child. split; [now left | exact Hin].
        + specialize (IHrest Hrest).
          match goal with
          | |- match ?l with _ => _ end => destruct l as [found|]
          end.
          * destruct IHrest as [(c & Hc & Hin) Hpath]. split; [|exact Hpath].
            exists c. split; [now right | exact Hin].
          * intros c n [<- | Hc] Hin; [now apply Hchild | eapply IHrest; eauto]. }
    match goal with
    | |- match ?l with _ => _ end => destruct l as [found|]
    end.
    + destruct Hloop as [(c & Hc & Hin) Hpath]. split; [|exact Hpath].
      eapply InTree_child; [exact Hc | exact Hin].
    + intros n Hn. apply InTree_inv in Hn as [-> | (c & Hc & Hin)].
      * simpl. congruence.
      * eapply Hloop; eauto.
Qed.

Lemma findNode_empty h : findNode h "" = Some h.
Proof. destruct h; reflexivity. Qed.

(** C4: on a hierarchy tree (one whose root has the empty path) [findNode]
    returns a node of the tree whose path is the one asked for, the root for
    the empty string, and it returns [null] exactly when no node of the tree
    has that path. *)
Theorem findNode_lookup (h : HierarchyNode) (p : string) :
  path h = "" ->
  findNode h "" = Some h /\
  (forall n, findNode h p = Some n -> InTree n h /\ path n = p) /\
  (findNode h p = None <-> forall n, InTree n h -> path n <> p).
Proof.
  intros Hroot. split; [apply findNode_empty|].
  destruct (String.eqb_spec p "") as [-> | Hp].
  - rewrite findNode_empty. split.
    + intros n H. injection H as <-. split; [constructor | exact Hroot].
    + split; [discriminate|]. intros H. exfalso. apply (H h); [constructor | exact Hroot].
  - pose proof (findNode_search h p Hp) as H.
    destruct (findNode h p) as [found|].
    + split.
      * intros n Hn. injection Hn as <-. exact H.
      * split; [discriminate|]. intros Hnone. exfalso.
        destruct H as [Hin Hpath]. exact (Hnone found Hin Hpath).
    + split; [discriminate|]. split; [intros _; exact H | reflexivity].
Qed.

Lemma findNode_lookup_witness :
  let leaf := mkNode "Aes" "Symmetric/Aes" [] [] in
  let h := mkNode "" "" [mkNode "Symmetric" "Symmetric" [leaf] []] [] in
  findNode h "Symmetric/Aes" = Some leaf /\
  InTree leaf h /\
  findNode h "KDF" = None.
Proof.
  intros leaf h.
  destruct (findNode_lookup h "Symmetric/Aes" eq_refl) as (_ & Hsome & _).
  split; [reflexivity|]. split; [apply (Hsome leaf eq_refl)|reflexivity].
Defined.

(** * The view of a selected path *)

Section ViewFacts.
Variable host : Host.
Variable decodeURIComponent : string -> completion string.
Variable filterByJmhMode : list BenchmarkComparison -> JmhMode -> list BenchmarkComparison.
Variable getUniqueJmhModes : list BenchmarkComparison -> list JmhMode.


End ViewFacts.



(** * The display label *)

Section LabelFacts.
Variable host : Host.
Import Label.




End LabelFacts.



(** * Provider initialisation in the harness *)

Import CryptoBenchmark.

Lemma allAscii_spec f : allAscii f = true -> forall c, f c = true.
Proof.
  unfold allAscii. rewrite forallb_forall. intros H c.
  rewrite <- (ascii_nat_embedding c). apply H, in_seq.
  pose proof (nat_ascii_bounded c). lia.
Qed.

(** Against an ASCII letter, the case-insensitive match of a code unit below
    256 is equality after ASCII lower-casing. *)
Lemma charMatches_letter a c :
  isAsciiLetter a = true ->
  charMatchesIgnoreCase a c = Ascii.eqb (lowerAscii a) (lowerAscii c).
Proof.
  revert c. revert a.
  assert (H : allAscii (fun a => allAscii (fun c =>
            implb (isAsciiLetter a)
                  (Bool.eqb (charMatchesIgnoreCase a c)
                            (Ascii.eqb (lowerAscii a) (lowerAscii c))))) = true)
    by (vm_compute; reflexivity).
  intros a c Ha.
  pose proof (allAscii_spec _ (allAscii_spec _ H a) c) as Hac.
  rewrite Ha in Hac. simpl in Hac. now apply eqb_prop.
Qed.

Lemma regionMatches_letters s : forall t,
  allLetters s = true ->
  Nat.eqb (length s) (length t) && regionMatchesIgnoreCase s t
    = (lowerString s =? lowerString t).
Proof.
  induction s as [|a s IH]; intros [|b t] Hs; simpl in *; try reflexivity.
  apply andb_prop in Hs as [Ha Hs].
  rewrite (charMatches_letter a b Ha).
  destruct (Ascii.eqb (lowerAscii a) (lowerAscii b)); simpl.
  - apply IH, Hs.
  - apply andb_false_r.
Qed.

Lemma equalsIgnoreCase_letters s name :
  allLetters s = true ->
  equalsIgnoreCase s (Some name) = true <-> lowerString name = lowerString s.
Proof.
  intros Hs. unfold equalsIgnoreCase.
  rewrite (regionMatches_letters s name Hs), String.eqb_eq.
  split; congruence.
Qed.

Lemma addProvider_installed p ps : In p (addProvider p ps).
Proof.
  unfold addProvider. destruct (existsb (provider_eqb p) ps) eqn:E.
  - apply existsb_exists in E as (q & Hq & Heq).
    destruct p, q; try discriminate; exact Hq.
  - apply in_or_app. right. now left.
Qed.

(** C8: the parameter has the two values ["BC"] and ["Jostle"];
    [initProvider] installs the Bouncy Castle provider when the name is
    ["BC"] up to the case of its letters, the Jostle provider when it is
    ["Jostle"] up to case, and throws [IllegalArgumentException] for every
    other name, leaving no provider installed by the call. *)
Theorem initProvider_cases (this : State) (name : string) :
  providerName this = Some name ->
  providerNameParam = ["BC"; "Jostle"] /\
  (forall p : Types.Provider, p = BC \/ p = Jostle) /\
  (lowerString name = "bc" ->
     exists after, initProvider this = Returns after /\
       provider after = Some BouncyCastleProvider /\
       In BouncyCastleProvider (installed after)) /\
  (lowerString name = "jostle" ->
     exists after, initProvider this = Returns after /\
       provider after = Some JostleProvider /\
       In JostleProvider (installed after)) /\
  (lowerString name <> "bc" -> lowerString name <> "jostle" ->
     initProvider this
       = Throws (IllegalArgumentException ("Unknown provider: " ++ name))).
Proof.
  intros Hname. split; [reflexivity|].
  split; [intros []; auto|].
  unfold initProvider, equalsIgnoreCase. rewrite Hname.
  rewrite (regionMatches_letters "BC" name eq_refl).
  rewrite (regionMatches_letters "Jostle" name eq_refl).
  change (lowerString "BC") with "bc".
  change (lowerString "Jostle") with "jostle".
  destruct (String.eqb_spec "bc" (lowerString name)) as [Hbc | Hbc];
    [|destruct (String.eqb_spec "jostle" (lowerString name)) as [Hjo | Hjo]].
  - split; [|split].
    + intros _. eexists. split; [reflexivity|].
      split; [reflexivity | apply addProvider_installed].
    + intros H. rewrite H in Hbc. discriminate.
    + intros H. congruence.
  - split; [|split].
    + intros H. congruence.
    + intros _. eexists. split; [reflexivity|].
      split; [reflexivity | apply addProvider_installed].
    + intros _ H. congruence.
  - split; [|split]; [intros H; congruence | intros H; congruence |].
    intros _ _. reflexivity.
Qed.

Lemma initProvider_cases_witness :
  (exists after,
     initProvider {| providerName := Some "bc"; provider := None; installed := [] |}
       = Returns after /\
     provider after = Some BouncyCastleProvider /\
     In BouncyCastleProvider (installed after)) /\
  initProvider {| providerName := Some "SunJCE"; provider := None; installed := [] |}
    = Throws (IllegalArgumentException "Unknown provider: SunJCE").
Proof.
  split.
  - apply (initProvider_cases
             {| providerName := Some "bc"; provider := None; installed := [] |}
             "bc" eq_refl).
    reflexivity.
  - apply (initProvider_cases
             {| providerName := Some "SunJCE"; provider := None; installed := [] |}
             "SunJCE" eq_refl); discriminate.
Defined.

(** The [null] name is refused as well. *)
Lemma initProvider_null ps :
  initProvider {| providerName := None; provider := None; installed := ps |}
    = Throws (IllegalArgumentException "Unknown provider: null").
Proof. reflexivity. Qed.

(** * The pair matcher *)

Import Parser.

Lemma sameKey_spec a b : sameKey a b = true <-> a = b.
Proof. unfold sameKey. destruct (JoinKey_eq_dec a b); split; congruence. Qed.

Lemma keyOf_newComparison r : keyOf (newComparison r) = keyOfParsed r.
Proof. reflexivity. Qed.

Lemma keyOf_fillSlot r c : keyOf (fillSlot r c) = keyOf c.
Proof. unfold fillSlot. destruct (Parsed.provider r); reflexivity. Qed.

Lemma scoreUnit_fillSlot r c : scoreUnit (fillSlot r c) = scoreUnit c.
Proof. unfold fillSlot. destruct (Parsed.provider r); reflexivity. Qed.

(** One step either fills a slot of the first entity of the key, or appends
    a new entity when no entity has the key. *)
Lemma mergeRecord_spec r cs :
  (exists before c after,
     cs = (before ++ c :: after)%list /\
     keyOf c = keyOfParsed r /\
     (forall x, In x before -> keyOf x <> keyOfParsed r) /\
     mergeRecord r cs = ((before ++ fillSlot r c :: after)%list, mergeAnomalies r c)) \/
  ((forall x, In x cs -> keyOf x <> keyOfParsed r) /\
   mergeRecord r cs = ((cs ++ [newComparison r])%list, [])).
Proof.
  induction cs as [|c cs IH]; simpl.
  - right. split; [intros ? []|reflexivity].
  - destruct (sameKey (keyOfParsed r) (keyOf c)) eqn:E.
    + apply sameKey_spec in E. left. exists [], c, cs.
      repeat split; auto.
    + assert (Hne : keyOf c <> keyOfParsed r).
      { intros H. rewrite H in E.
        assert (sameKey (keyOfParsed r) (keyOfParsed r) = true) by now apply sameKey_spec.
        congruence. }
      destruct IH as [(before & c' & after & -> & Hk & Hb & Hm) | [Hall Hm]].
      * left. exists (c :: before), c', after. rewrite Hm.
        repeat split; auto. intros x [<- | Hx]; auto.
      * right. rewrite Hm. split; [|reflexivity].
        intros x [<- | Hx]; auto.
Qed.

Lemma sideFrom_mono p rs rs' an an' e :
  sideFrom p rs an e -> sideFrom p (rs ++ rs') (an ++ an') e.
Proof.
  intros H s Hs. destruct (H s Hs) as (r & Hin & Hp & Hk & Hsc & He & Hr & Hu).
  exists r. repeat split; auto.
  - apply in_or_app. now left.
  - destruct Hu; [now left | right; apply in_or_app; now left].
Qed.

Lemma firstSeenUnit_mono rs rs' e : firstSeenUnit rs e -> firstSeenUnit (rs ++ rs') e.
Proof.
  intros (before & r & after & -> & Hb & Hk & Hu).
  exists before, r, (after ++ rs')%list. rewrite <- app_assoc. auto.
Qed.

Lemma mergeAnomalies_unit r c :
  Parsed.scoreUnit r = scoreUnit c \/ In (UnitMismatch (keyOfParsed r)) (mergeAnomalies r c).
Proof.
  unfold mergeAnomalies.
  destruct (String.eqb_spec (Parsed.scoreUnit r) (scoreUnit c)); [now left|].
  right. apply in_or_app. right. now left.
Qed.

(** The side of its provider after a record has been merged into an entity
    of its key. *)
Lemma sideFrom_fillSlot_own r c rs an :
  keyOf c = keyOfParsed r ->
  sideFrom (Parsed.provider r) (rs ++ [r]) (an ++ mergeAnomalies r c) (fillSlot r c).
Proof.
  intros Hk s Hs. exists r.
  rewrite keyOf_fillSlot, scoreUnit_fillSlot, Hk.
  assert (Hin : In r (rs ++ [r])) by (apply in_or_app; right; now left).
  assert (Hu : Parsed.scoreUnit r = scoreUnit c \/
               In (UnitMismatch (keyOfParsed r)) (an ++ mergeAnomalies r c)).
  { destruct (mergeAnomalies_unit r c); [now left|].
    right. apply in_or_app. now right. }
  unfold fillSlot in *. destruct (Parsed.provider r); simpl in *;
    injection Hs as <-; repeat split; auto.
Qed.

(** The other side is the one the entity had. *)
Lemma sideFrom_fillSlot_other p r c rs an :
  p <> Parsed.provider r ->
  sideFrom p rs an c ->
  sideFrom p (rs ++ [r]) (an ++ mergeAnomalies r c) (fillSlot r c).
Proof.
  intros Hp H. apply (sideFrom_mono p rs [r] an (mergeAnomalies r c)) in H.
  intros s Hs.
  assert (Hs' : slotScore p c = Some s).
  { unfold fillSlot in Hs. destruct p, (Parsed.provider r); simpl in *; congruence. }
  destruct (H s Hs') as (x & Hin & Hpx & Hk & Hsc & He & Hr & Hu).
  exists x. rewrite keyOf_fillSlot, scoreUnit_fillSlot.
  unfold fillSlot. destruct p, (Parsed.provider r); simpl in *;
    try congruence; repeat split; auto.
Qed.

Lemma sideFrom_fillSlot p r c rs an :
  keyOf c = keyOfParsed r ->
  sideFrom p rs an c ->
  sideFrom p (rs ++ [r]) (an ++ mergeAnomalies r c) (fillSlot r c).
Proof.
  intros Hk H.
  assert (Hdec : p = Parsed.provider r \/ p <> Parsed.provider r)
    by (destruct p, (Parsed.provider r); (now left) || (right; discriminate)).
  destruct Hdec as [-> | Hne].
  - now apply sideFrom_fillSlot_own.
  - now apply sideFrom_fillSlot_other.
Qed.

Lemma sideFrom_newComparison p r rs an :
  sideFrom p (rs ++ [r]) an (newComparison r).
Proof.
  intros s Hs.
  assert (Hin : In r (rs ++ [r])) by (apply in_or_app; right; now left).
  exists r. unfold newComparison in *.
  destruct p, (Parsed.provider r); simpl in *; try discriminate;
    injection Hs as <-; repeat split; auto.
Qed.

Lemma present_fillSlot r c :
  bcScore (fillSlot r c) <> None \/ jostleScore (fillSlot r c) <> None.
Proof. unfold fillSlot. destruct (Parsed.provider r); simpl; [left | right]; discriminate. Qed.

Lemma present_newComparison r :
  bcScore (newComparison r) <> None \/ jostleScore (newComparison r) <> None.
Proof. unfold newComparison. destruct (Parsed.provider r); simpl; [left | right]; discriminate. Qed.

(** One step keeps what the matcher maintains. *)
Lemma mergeRecord_matched rs r cs an :
  matched rs (cs, an) ->
  matched (rs ++ [r]) (fst (mergeRecord r cs), (an ++ snd (mergeRecord r cs))%list).
Proof.
  intros [Hcomplete Hall]. simpl in *.
  destruct (mergeRecord_spec r cs)
    as [(before & c & after & -> & Hk & Hb & ->) | [Hnone ->]]; simpl.
  - split.
    + intros x Hx. apply in_app_or in Hx as [Hx | [<- | []]].
      * destruct (Hcomplete x Hx) as (e & He & Hke).
        apply in_app_or in He as [He | [<- | He]].
        -- exists e. split; [apply in_or_app; now left | exact Hke].
        -- exists (fillSlot r c). split; [apply in_or_app; right; now left|].
           now rewrite keyOf_fillSlot.
        -- exists e. split; [apply in_or_app; right; now right | exact Hke].
      * exists (fillSlot r c). split; [apply in_or_app; right; now left|].
        now rewrite keyOf_fillSlot.
    + assert (Hold : forall e, In e (before ++ c :: after) ->
                (bcScore e <> None \/ jostleScore e <> None) /\
                sideFrom BC (rs ++ [r]) (an ++ mergeAnomalies r c) e /\
                sideFrom Jostle (rs ++ [r]) (an ++ mergeAnomalies r c) e /\
                firstSeenUnit (rs ++ [r]) e).
      { intros e He. destruct (Hall e He) as (H1 & H2 & H3 & H4).
        repeat split; auto using sideFrom_mono, firstSeenUnit_mono. }
      intros e He. apply in_app_or in He as [He | [<- | He]].
      * apply Hold, in_or_app. now left.
      * destruct (Hall c) as (_ & H2 & H3 & H4); [apply in_or_app; right; now left|].
        split; [apply present_fillSlot|].
        split; [now apply sideFrom_fillSlot|].
        split; [now apply sideFrom_fillSlot|].
        apply (firstSeenUnit_mono rs [r]) in H4.
        destruct H4 as (b & x & a & Hrs & Hbx & Hkx & Hux).
        exists b, x, a. rewrite keyOf_fillSlot, scoreUnit_fillSlot. auto.
      * apply Hold, in_or_app. right. now right.
  - split.
    + intros x Hx. apply in_app_or in Hx as [Hx | [<- | []]].
      * destruct (Hcomplete x Hx) as (e & He & Hke).
        exists e. split; [apply in_or_app; now left | exact Hke].
      * exists (newComparison r). split; [apply in_or_app; right; now left | reflexivity].
    + intros e He. rewrite app_nil_r. apply in_app_or in He as [He | [<- | []]].
      * destruct (Hall e He) as (H1 & H2 & H3 & H4).
        split; [exact H1|].
        split; [rewrite <- (app_nil_r an); now apply sideFrom_mono|].
        split; [rewrite <- (app_nil_r an); now apply sideFrom_mono|].
        now apply firstSeenUnit_mono.
      * split; [apply present_newComparison|].
        split; [apply sideFrom_newComparison|].
        split; [apply sideFrom_newComparison|].
        exists rs, r, []. repeat split; auto.
        intros x Hx Hkx. destruct (Hcomplete x Hx) as (e & He & Hke).
        apply (Hnone e He). rewrite Hke. exact Hkx.
Qed.

Lemma pairMatchFrom_matched rs : forall seen acc,
  matched seen acc -> matched (seen ++ rs) (pairMatchFrom rs acc).
Proof.
  induction rs as [|r rs IH]; intros seen acc H; simpl.
  - now rewrite app_nil_r.
  - destruct acc as [cs an]. simpl.
    pose proof (mergeRecord_matched seen r cs an H) as Hstep.
    destruct (mergeRecord r cs) as [cs' an']. simpl in Hstep.
    replace (seen ++ r :: rs)%list with ((seen ++ [r]) ++ rs)%list
      by (rewrite <- app_assoc; reflexivity).
    now apply IH.
Qed.

Lemma pairMatch_matched rs : matched rs (pairMatch rs).
Proof.
  apply (pairMatchFrom_matched rs [] ([], [])).
  split; intros ? [].
Qed.

(** C3: every entity of the pair matcher has a side present; a side that is
    present comes from a record of that provider with the classification of
    the entity, so two present sides share their classification; the entity
    carries the unit of the first record of its key, which is the unit of
    each side unless a unit mismatch was reported for the key; and every
    record, mismatched or not, has an entity of its key. *)
Theorem pairMatch_entities (rs : list ParsedBenchmark) (e : BenchmarkComparison) :
  In e (fst (pairMatch rs)) ->
  (bcScore e <> None \/ jostleScore e <> None) /\
  sideFrom BC rs (snd (pairMatch rs)) e /\
  sideFrom Jostle rs (snd (pairMatch rs)) e /\
  firstSeenUnit rs e /\
  (forall r, In r rs ->
     exists e', In e' (fst (pairMatch rs)) /\ keyOf e' = keyOfParsed r).
Proof.
  intros He. destruct (pairMatch_matched rs) as [Hcomplete Hall].
  destruct (Hall e He) as (H1 & H2 & H3 & H4). auto.
Qed.

Lemma pairMatch_entities_witness :
  let rs := [Sample.aesRecord BC (ofZ 5) "ops/s"; Sample.aesRecord Jostle (ofZ 7) "ops/ms"] in
  exists e, fst (pairMatch rs) = [e] /\
    bcScore e = Some (ofZ 5) /\ jostleScore e = Some (ofZ 7) /\
    scoreUnit e = "ops/s" /\
    snd (pairMatch rs) = [UnitMismatch (keyOf e)] /\
    firstSeenUnit rs e.
Proof.
  intros rs. eexists. split; [reflexivity|].
  repeat (split; [reflexivity|]).
  apply (pairMatch_entities rs). now left.
Defined.

(** * The hierarchy builder *)

(** ** Paths as strings *)

Lemma append_inv_head (s a b : string) : s ++ a = s ++ b -> a = b.
Proof. induction s; simpl; intros H; [exact H | injection H; auto]. Qed.

Lemma join_cons sep a l :
  l <> [] -> join sep (a :: l) = a ++ sep ++ join sep l.
Proof. destruct l; [congruence | reflexivity]. Qed.

Lemma append_assoc (a b c : string) : (a ++ b) ++ c = a ++ (b ++ c).
Proof. induction a; simpl; congruence. Qed.

Lemma join_snoc sep l a :
  l <> [] -> join sep (l ++ [a]) = join sep l ++ sep ++ a.
Proof.
  induction l as [|x l IH]; [congruence|]. intros _.
  destruct l as [|y l]; [reflexivity|].
  change ((x :: y :: l) ++ [a])%list with (x :: ((y :: l) ++ [a]))%list.
  rewrite join_cons by (destruct l; discriminate).
  rewrite IH by discriminate.
  rewrite (join_cons sep x (y :: l)) by discriminate.
  now rewrite !append_assoc.
Qed.

(** Two children of one node with the same path have the same name. *)
Lemma pathOf_last_inj sp a b : pathOf (sp ++ [a]) = pathOf (sp ++ [b]) -> a = b.
Proof.
  unfold pathOf. destruct sp as [|x sp]; [simpl; auto|].
  rewrite !join_snoc by discriminate.
  intros H. apply append_inv_head in H. simpl in H. congruence.
Qed.




(** ** Prefixes of segment lists *)

Lemma isPrefixOf_spec sp : forall l,
  isPrefixOf sp l = true <-> exists rest, l = (sp ++ rest)%list.
Proof.
  induction sp as [|a sp IH]; intros l; simpl.
  - split; eauto.
  - destruct l as [|b l].
    + split; [discriminate | intros [? H]; discriminate].
    + rewrite andb_true_iff, String.eqb_eq, IH. split.
      * intros [-> [rest ->]]. eauto.
      * intros [rest H]. injection H as -> ->. eauto.
Qed.

Lemma isPrefixOf_app sp rest : isPrefixOf sp (sp ++ rest) = true.
Proof. apply isPrefixOf_spec. eauto. Qed.

Lemma isPrefixOf_weaken sp x l : isPrefixOf (sp ++ x) l = true -> isPrefixOf sp l = true.
Proof.
  rewrite !isPrefixOf_spec. intros [rest ->]. rewrite <- app_assoc. eauto.
Qed.

Lemma through_child sp s rest c x :
  pathSegments c = (sp ++ s :: rest)%list ->
  through (sp ++ [x]) c = true -> x = s.
Proof.
  unfold through. intros Hc H. apply isPrefixOf_spec in H as [r Hr].
  rewrite Hc, <- app_assoc in Hr. apply app_inv_head in Hr.
  simpl in Hr. congruence.
Qed.

Lemma through_leaf sp c x :
  pathSegments c = sp -> through (sp ++ [x]) c = false.
Proof.
  unfold through. intros Hc.
  destruct (isPrefixOf (sp ++ [x]) (pathSegments c)) eqn:E; [|reflexivity].
  apply isPrefixOf_spec in E as [r Hr]. rewrite Hc in Hr.
  apply (f_equal (@List.length string)) in Hr.
  rewrite !length_app in Hr. simpl in Hr. lia.
Qed.

Lemma filter_snoc {A} (f : A -> bool) l x :
  filter f (l ++ [x]) = (filter f l ++ if f x then [x] else [])%list.
Proof. rewrite filter_app. reflexivity. Qed.

Lemma filter_none {A} (f : A -> bool) l :
  (forall x, In x l -> f x = false) -> filter f l = [].
Proof.
  induction l as [|x l IH]; intros H; simpl; [reflexivity|].
  rewrite (H x) by now left. apply IH. intros y Hy. apply H. now right.
Qed.

Lemma filter_all {A} (f : A -> bool) l :
  (forall x, In x l -> f x = true) -> filter f l = l.
Proof.
  induction l as [|x l IH]; intros H; simpl; [reflexivity|].
  rewrite (H x) by now left. f_equal. apply IH. intros y Hy. apply H. now right.
Qed.

(** ** Insertion keeps the tree in shape *)

Lemma insertAt_name sp segs c n : name (insertAt sp segs c n) = name n.
Proof. destruct segs; reflexivity. Qed.

Lemma insertAt_path sp segs c n : path (insertAt sp segs c n) = path n.
Proof. destruct segs; reflexivity. Qed.

Lemma nodeAt_path cs sp n : nodeAt cs sp n -> path n = pathOf sp.
Proof. intros H. inversion H; subst; reflexivity. Qed.

Lemma nodeAt_comparisons cs sp n :
  nodeAt cs sp n -> comparisons n = filter (through sp) cs.
Proof. intros H. inversion H; subst; reflexivity. Qed.

(** An entity that does not run through a node leaves its subtree as it
    is. *)
Lemma nodeAt_off cs c n : forall sp,
  nodeAt cs sp n -> through sp c = false -> nodeAt (cs ++ [c]) sp n.
Proof.
  induction n as [nm pth chs comps IH] using HierarchyNode_ind.
  intros sp H Hoff.
  inversion H as [? ? ? ? ? Hpth Hcomps Hfree Hnd Hcompl Hch]; subst.
  constructor; auto.
  - rewrite filter_snoc, Hoff. now rewrite app_nil_r.
  - intros c' s rest Hc' Hsegs. apply in_app_or in Hc' as [Hc' | [<- | []]].
    + eapply Hcompl; eauto.
    + unfold through in Hoff. rewrite Hsegs, isPrefixOf_app in Hoff. discriminate.
  - rewrite Forall_forall in *. intros ch Hin.
    apply IH; auto.
    destruct (through (sp ++ [name ch]) c) eqn:E; [|reflexivity].
    apply isPrefixOf_weaken in E. unfold through in Hoff. congruence.
Qed.

(** The two outcomes of [updateChild]. *)
Lemma updateChild_spec target continue fresh chs :
  (exists before ch after,
     chs = (before ++ ch :: after)%list /\
     path ch = target /\
     updateChild target continue fresh chs = (before ++ continue ch :: after)%list) \/
  ((forall x, In x chs -> path x <> target) /\
   updateChild target continue fresh chs = (chs ++ [continue fresh])%list).
Proof.
  induction chs as [|ch chs IH]; simpl.
  - right. split; [intros ? []|reflexivity].
  - destruct (String.eqb_spec (path ch) target) as [Heq | Hne].
    + left. exists [], ch, chs. auto.
    + destruct IH as [(before & x & after & -> & Hp & ->) | [Hall ->]].
      * left. exists (ch :: before), x, after. auto.
      * right. split; [|reflexivity]. intros x [<- | Hx]; auto.
Qed.

Lemma NoDup_middle_name (before after : list HierarchyNode) ch x :
  NoDup (map name (before ++ ch :: after)) ->
  In x (before ++ after) -> name x <> name ch.
Proof.
  rewrite map_app. simpl. intros Hnd Hx Heq.
  apply NoDup_remove_2 in Hnd. apply Hnd.
  rewrite <- Heq, <- map_app. now apply in_map.
Qed.

(** Inserting an entity whose path continues below a node of the tree. *)
Lemma insertAt_nodeAt cs c : slashFreePath c -> forall segs sp n,
  nodeAt cs sp n ->
  pathSegments c = (sp ++ segs)%list ->
  nodeAt (cs ++ [c]) sp (insertAt sp segs c n).
Proof.
  intros Hfreec.
  induction segs as [|s rest IH]; intros sp n H Hsegs;
    inversion H as [? nm pth chs comps Hpth Hcomps Hfree Hnd Hcompl Hch]; subst; simpl.
  - rewrite app_nil_r in Hsegs.
    constructor; auto.
    + assert (Hthrough : through sp c = true)
        by (unfold through; rewrite Hsegs; apply isPrefixOf_spec; exists [];
            now rewrite app_nil_r).
      now rewrite filter_snoc, Hthrough.
    + intros c' s rest Hc' Hs. apply in_app_or in Hc' as [Hc' | [<- | []]].
      * eapply Hcompl; eauto.
      * rewrite Hsegs in Hs. apply (f_equal (@List.length string)) in Hs.
        rewrite length_app in Hs. simpl in Hs. lia.
    + rewrite Forall_forall in *. intros ch Hin.
      apply nodeAt_off; auto. now apply through_leaf.
  - assert (Hhere : pathSegments c = ((sp ++ [s]) ++ rest)%list)
      by (rewrite <- app_assoc; exact Hsegs).
    assert (Hfree' : Forall (fun x => slashFree x = true) (sp ++ [s])).
    { unfold slashFreePath in Hfreec. rewrite Hhere in Hfreec.
      now apply Forall_app in Hfreec as [Hf _]. }
    assert (Hname : forall x, In x chs -> path x = pathOf (sp ++ [s]) -> name x = s).
    { rewrite Forall_forall in Hch. intros x Hx Hp.
      rewrite (nodeAt_path _ _ _ (Hch x Hx)) in Hp.
      now apply pathOf_last_inj in Hp. }
    assert (Hoff : forall x, In x chs -> name x <> s ->
                     nodeAt (cs ++ [c]) (sp ++ [name x]) x).
    { rewrite Forall_forall in Hch. intros x Hx Hne.
      apply nodeAt_off; auto.
      destruct (through (sp ++ [name x]) c) eqn:E; [|reflexivity].
      apply (through_child sp s rest) in E; auto. contradiction. }
    assert (Hthrough : through sp c = true)
      by (unfold through; rewrite Hsegs; apply isPrefixOf_app).
    destruct (updateChild_spec (pathOf (sp ++ [s])) (insertAt (sp ++ [s]) rest c)
                (mkNode s (pathOf (sp ++ [s])) [] []) chs)
      as [(before & ch & after & -> & Hp & ->) | [Hnone ->]].
    + assert (Hs : name ch = s) by (apply Hname; auto; apply in_or_app; right; now left).
      constructor; auto.
      * now rewrite filter_snoc, Hthrough.
      * rewrite map_app in *. simpl in *. now rewrite insertAt_name.
      * intros c' s' rest' Hc' Hs'. apply in_app_or in Hc' as [Hc' | [<- | []]].
        -- destruct (Hcompl c' s' rest' Hc' Hs') as (x & Hx & Hnx).
           apply in_app_or in Hx as [Hx | [<- | Hx]].
           ++ exists x. split; [apply in_or_app; now left | exact Hnx].
           ++ exists (insertAt (sp ++ [s]) rest c ch).
              split; [apply in_or_app; right; now left|]. now rewrite insertAt_name.
           ++ exists x. split; [apply in_or_app; right; now right | exact Hnx].
        -- rewrite Hsegs in Hs'. apply app_inv_head in Hs'. injection Hs' as <- _.
           exists (insertAt (sp ++ [s]) rest c ch).
           split; [apply in_or_app; right; now left|]. now rewrite insertAt_name.
      * rewrite Forall_forall in *. intros x Hx.
        apply in_app_or in Hx as [Hx | [<- | Hx]].
        -- apply Hoff; [apply in_or_app; now left|].
           rewrite <- Hs. apply (NoDup_middle_name before after); auto.
           apply in_or_app. now left.
        -- rewrite insertAt_name, Hs. apply IH; auto.
           rewrite <- Hs. apply Hch. apply in_or_app. right. now left.
        -- apply Hoff; [apply in_or_app; right; now right|].
           rewrite <- Hs. apply (NoDup_middle_name before after); auto.
           apply in_or_app. now right.
    + assert (Hfresh : forall x, In x chs -> name x <> s).
      { rewrite Forall_forall in Hch. intros x Hx Hnx. apply (Hnone x Hx).
        rewrite (nodeAt_path _ _ _ (Hch x Hx)). now rewrite Hnx. }
      assert (Hnew : forall c', In c' cs -> through (sp ++ [s]) c' = false).
      { intros c' Hc'. destruct (through (sp ++ [s]) c') eqn:E; [|reflexivity].
        apply isPrefixOf_spec in E as [r Hr]. rewrite <- app_assoc in Hr.
        destruct (Hcompl c' s r Hc' Hr) as (x & Hx & Hnx).
        exfalso. exact (Hfresh x Hx Hnx). }
      constructor; auto.
      * now rewrite filter_snoc, Hthrough.
      * rewrite map_app. simpl. rewrite insertAt_name. simpl.
        apply NoDup_app; [exact Hnd | repeat constructor; intros [] |].
        intros x Hx [<- | []]. apply in_map_iff in Hx as (y & Hy & Hin).
        exact (Hfresh y Hin Hy).
      * intros c' s' rest' Hc' Hs'. apply in_app_or in Hc' as [Hc' | [<- | []]].
        -- destruct (Hcompl c' s' rest' Hc' Hs') as (x & Hx & Hnx).
           exists x. split; [apply in_or_app; now left | exact Hnx].
        -- rewrite Hsegs in Hs'. apply app_inv_head in Hs'. injection Hs' as <- _.
           eexists. split; [apply in_or_app; right; now left|].
           now rewrite insertAt_name.
      * apply Forall_app. split.
        -- rewrite Forall_forall in *. intros x Hx. apply Hoff; auto.
        -- constructor; [|constructor].
           rewrite insertAt_name. simpl. apply IH; auto.
           constructor; auto; try constructor.
           ++ symmetry. now apply filter_none.
           ++ intros c' s' rest' Hc' Hs'. exfalso.
              assert (E : through (sp ++ [s]) c' = true).
              { unfold through. rewrite Hs'. apply isPrefixOf_app. }
              rewrite Hnew in E by assumption. discriminate.
Qed.

(** ** The built tree *)

Lemma nodeAt_emptyRoot : nodeAt [] [] emptyRoot.
Proof.
  constructor; auto; try constructor. intros ? ? ? [].
Qed.

Lemma buildFrom_nodeAt rs : forall seen root,
  Forall slashFreePath rs ->
  nodeAt seen [] root ->
  nodeAt (seen ++ rs) []
    (fold_left (fun root c => insertAt [] (pathSegments c) c root) rs root).
Proof.
  induction rs as [|c rs IH]; intros seen root Hfree H; cbn [fold_left].
  - now rewrite app_nil_r.
  - inversion Hfree as [|? ? Hc Hrs]; subst.
    replace (seen ++ c :: rs)%list with ((seen ++ [c]) ++ rs)%list
      by (rewrite <- app_assoc; reflexivity).
    apply IH; [exact Hrs|].
    exact (insertAt_nodeAt seen c Hc (pathSegments c) [] root H eq_refl).
Qed.

Lemma buildHierarchy_nodeAt cs :
  Forall slashFreePath cs -> nodeAt cs [] (buildHierarchy cs).
Proof.
  intros H. apply (buildFrom_nodeAt cs [] emptyRoot H nodeAt_emptyRoot).
Qed.





(** The count on the root button of the sidebar is the number of
    entities. *)
Lemma sidebar_root_count host cs :
  Forall slashFreePath cs ->
  exists below, Sidebar.Sidebar host (buildHierarchy cs)
                = Sidebar.entry "All Benchmarks" "" (List.length cs) below.
Proof.
  intros H. unfold Sidebar.Sidebar.
  rewrite (nodeAt_comparisons _ _ _ (buildHierarchy_nodeAt cs H)).
  rewrite filter_all by reflexivity. eauto.
Qed.



(** * The empty load *)

Section EmptyLoad.
Variable host : Host.
Variable classify : JmhBenchmarkResult -> option ParsedBenchmark.
Variable decodeURIComponent : string -> completion string.
Variable filterByJmhMode : list BenchmarkComparison -> JmhMode -> list BenchmarkComparison.
Variable getUniqueJmhModes : list BenchmarkComparison -> list JmhMode.

(** C7: a load of zero records returns a root with no children, no
    comparisons and no anomalies; given no comparisons the chart and the table
    render their "no data" message, and the view of that root renders an empty
    panel with the notice that no benchmarks were found; none of them
    throws. *)
Theorem empty_load (title path : string) (jmhMode : JmhMode) :
  let result := load classify [] in
  children (hierarchy result) = [] /\
  comparisons (hierarchy result) = [] /\
  Types.path (hierarchy result) = "" /\
  anomalies result = [] /\
  BenchmarkChart.BenchmarkChart host [] title path jmhMode
    = BenchmarkChart.Empty "No data available for this selection." /\
  BenchmarkTable.BenchmarkTable host [] title path jmhMode
    = Normal (BenchmarkTable.Empty "No data available.") /\
  BenchmarkView host decodeURIComponent filterByJmhMode getUniqueJmhModes
      initialState (hierarchy result) ""
    = Normal (Content {| breadcrumbs := [("All Benchmarks", "")];
                         title := "All Benchmarks";
                         comparisonCount := 0;
                         modeCount := List.length (getUniqueJmhModes []);
                         sections := [];
                         noBenchmarksNotice := true |}).
Proof. repeat split. Qed.

End EmptyLoad.

(** * File names of the exports *)

Import Exports Units.

Lemma allUnits_mapUnits p f s :
  (forall c, p (f c) = true) -> allUnits p (mapUnits f s) = true.
Proof.
  intros H. induction s as [|c s IH]; simpl; [reflexivity|].
  now rewrite H, IH.
Qed.

Lemma mapUnits_compose f g s : mapUnits f (mapUnits g s) = mapUnits (fun c => f (g c)) s.
Proof. induction s as [|c s IH]; simpl; [reflexivity | now rewrite IH]. Qed.

Lemma mapUnits_ext f g s : (forall c, f c = g c) -> mapUnits f s = mapUnits g s.
Proof.
  intros H. induction s as [|c s IH]; simpl; [reflexivity | now rewrite H, IH].
Qed.

Lemma length_mapUnits f s : length (mapUnits f s) = length s.
Proof. induction s as [|c s IH]; simpl; [reflexivity | now rewrite IH]. Qed.

Lemma ascii_eqb_all (f g : ascii -> ascii) :
  allAscii (fun c => Ascii.eqb (f c) (g c)) = true -> forall c, f c = g c.
Proof. intros H c. apply Ascii.eqb_eq. now apply (allAscii_spec _ H). Qed.

(** X1: the part of an export file name that comes from the path is as long as
    the path, is made of lower-case letters, digits, hyphens and underscores
    only, and is left as it is when cleaned again; an empty suffix counts as
    no suffix. *)
Theorem formatFilename_safe (now path : string) (suffix : option string) :
  length (base path) = length path /\
  allUnits isSafeUnit (base path) = true /\
  base (base path) = base path /\
  formatFilename now path suffix =
    "jmh-" ++ base path ++ "-" ++
    match suffix with
    | Some s => if s =? "" then "" else s ++ "-"
    | None => ""
    end ++ substring 0 10 now /\
  formatFilename now path (Some "") = formatFilename now path None.
Proof.
  unfold base. repeat split.
  - now rewrite !length_mapUnits.
  - rewrite !mapUnits_compose. apply allUnits_mapUnits.
    apply (allAscii_spec (fun c =>
             isSafeUnit (lowerUnit (unsafeToUnderscore (slashToDash c))))).
    vm_compute. reflexivity.
  - rewrite !mapUnits_compose. apply mapUnits_ext.
    apply ascii_eqb_all. vm_compute. reflexivity.
  - unfold formatFilename, base, truthy.
    destruct suffix as [s|]; [destruct (s =? "")|]; simpl; try reflexivity.
    now rewrite !append_assoc.
Qed.

(** X2: the chart and the table of one section are exported under different file
    names. *)
Theorem export_names_differ (now path : string) (jmhMode : JmhMode) :
  chartExportName now path jmhMode <> tableExportName now path jmhMode.
Proof.
  unfold chartExportName, tableExportName, formatFilename. intros H.
  assert (Hm : truthy (modeKey jmhMode) = true) by now destruct jmhMode.
  assert (Ht : truthy (modeKey jmhMode ++ "-table") = true) by now destruct jmhMode.
  rewrite Hm, Ht in H.
  apply (f_equal length) in H. simpl in H.
  rewrite !length_append in H. simpl in H. rewrite !length_append in H.
  simpl in H. lia.
Qed.

(** * Display names *)

Section NameFacts.
Variable host : Host.
Import Formatters.

Lemma expandPrefix_shape entries name :
  expandPrefix entries name = name \/
  exists v x, In v (map snd entries) /\ expandPrefix entries name = v ++ x.
Proof.
  induction entries as [|[k v] rest IH]; simpl; [now left|].
  destruct (startsWith name k).
  - right. destruct (startsWith _ "-"); [|destruct (startsWithDigit _)];
      eexists v, _; (split; [now left | reflexivity]).
  - destruct IH as [IH | (v' & x & Hin & IH)]; [now left|].
    right. exists v', x. split; [now right | exact IH].
Qed.

Lemma ownProperty_value table key v :
  ownProperty table key = Some v -> In v (map snd table).
Proof.
  induction table as [|[k w] rest IH]; simpl; [discriminate|].
  destruct (k =? key).
  - intros H. injection H as ->. now left.
  - intros H. right. now apply IH.
Qed.

Lemma displayed_name_stable v x :
  In v (map snd specialCases) ->
  formatAlgorithmName host (v ++ x) = v ++ x /\ v ++ x <> "default".
Proof.
  simpl. intros H.
  repeat (destruct H as [<- | H]; [split; [vm_compute; reflexivity | discriminate]|]).
  contradiction.
Qed.

Lemma append_empty (s : string) : s ++ "" = s.
Proof. induction s; simpl; congruence. Qed.

Lemma formatAlgorithmName_shape name :
  ownName name = true ->
  (formatAlgorithmName host name = name /\
   getProperty specialCases name = Missing) \/
  exists v x, In v (map snd specialCases) /\ formatAlgorithmName host name = v ++ x.
Proof.
  unfold ownName, formatAlgorithmName, getProperty. intros Hown.
  destruct (ownProperty specialCases name) as [v|] eqn:E.
  - right. exists v, "". split; [now apply ownProperty_value in E|].
    now rewrite append_empty.
  - destruct (existsb _ _); [discriminate|].
    destruct (expandPrefix_shape specialCases name) as [H | (v & x & Hin & H)].
    + left. split; [exact H | reflexivity].
    + right. exists v, x. split; assumption.
Qed.

(** X3: a display name is a fixed point of the formatters that produce it:
    for a name that is not a member every object inherits, formatting the
    result of [formatAlgorithmName] or of [formatVariantName] again changes
    nothing. *)
Theorem display_name_idempotent (name : string) :
  ownName name = true ->
  formatAlgorithmName host (formatAlgorithmName host name)
    = formatAlgorithmName host name /\
  formatVariantName host (formatVariantName host name)
    = formatVariantName host name.
Proof.
  intros Hown.
  assert (Ha : formatAlgorithmName host (formatAlgorithmName host name)
               = formatAlgorithmName host name).
  { destruct (formatAlgorithmName_shape name Hown) as [[H _] | (v & x & Hin & H)].
    - now rewrite !H.
    - rewrite H. now apply displayed_name_stable. }
  split; [exact Ha|].
  unfold formatVariantName.
  destruct (name =? "default") eqn:E; [vm_compute; reflexivity|].
  destruct (formatAlgorithmName_shape name Hown) as [[H _] | (v & x & Hin & H)].
  - rewrite H, E. now rewrite H.
  - rewrite H. destruct (displayed_name_stable v x Hin) as [Hs Hd].
    apply String.eqb_neq in Hd. now rewrite Hd.
Qed.

End NameFacts.

Lemma display_name_idempotent_witness :
  ownName "MlKem768" = true /\
  Formatters.formatAlgorithmName Sample.host "MlKem768" = "ML-KEM-768" /\
  Formatters.formatAlgorithmName Sample.host
    (Formatters.formatAlgorithmName Sample.host "MlKem768")
  = Formatters.formatAlgorithmName Sample.host "MlKem768".
Proof.
  split; [reflexivity|]. split; [reflexivity|].
  apply (display_name_idempotent Sample.host "MlKem768"). reflexivity.
Defined.

(** * Numbers as text *)

Section NumberFacts.
Variable host : Host.
Import Formatters.

Lemma allUnits_app p s t : allUnits p (s ++ t) = allUnits p s && allUnits p t.
Proof. induction s as [|c s IH]; simpl; [reflexivity | now rewrite IH, andb_assoc]. Qed.

Lemma superscript_units (s : string) :
  allUnits (fun c => negb (isPlainDigitOrSign c))
    (join ""
       (map (fun c => match ownProperty superscriptDigits c with
                      | Some v => v
                      | None => c
                      end)
            (chars s))) = true.
Proof.
  assert (Hc : forall c,
    allUnits (fun c => negb (isPlainDigitOrSign c))
      match ownProperty superscriptDigits (String c "") with
      | Some v => v
      | None => String c ""
      end = true).
  { apply (allAscii_spec (fun c =>
      allUnits (fun c => negb (isPlainDigitOrSign c))
        match ownProperty superscriptDigits (String c "") with
        | Some v => v
        | None => String c ""
        end)).
    vm_compute. reflexivity. }
  induction s as [|c s IH]; [reflexivity|].
  cbn [chars map].
  destruct (chars s) as [|c' l] eqn:E.
  - cbn [map join]. apply Hc.
  - cbn [map join] in *. rewrite allUnits_app. rewrite Hc. simpl. exact IH.
Qed.

(** X4: the exponent of the power-of-ten notation is written in superscript
    throughout: no ASCII digit and no ASCII sign is left in the text of
    [toSuperscript], whatever the number. *)
Theorem toSuperscript_no_plain_digit (num : number) :
  allUnits (fun c => negb (isPlainDigitOrSign c)) (toSuperscript num) = true.
Proof. unfold toSuperscript. apply superscript_units. Qed.

Lemma toFixed_throws x d :
  (d < 0 \/ 100 < d)%Z -> toFixed x d = Throw RangeError.
Proof.
  intros H. unfold toFixed.
  replace ((d <? 0)%Z || (100 <? d)%Z) with true; [reflexivity|].
  symmetry. apply orb_true_iff. rewrite !Z.ltb_lt. exact H.
Qed.

(** X5: with an explicit number of decimals, [formatScoreValue] fails, with a
    RangeError, exactly for a number outside the power-of-ten range with
    the decimals outside 0..100; inside the power-of-ten range the
    decimals are ignored and the result is that of the call without them. *)
Theorem formatScoreValue_decimals (value : option number) (decimals : Z) :
  (forall e, formatScoreValue host value (Some decimals) = Throw e <->
     e = RangeError /\
     exists v, value = Some v /\ scientificRange v = false /\
               (decimals < 0 \/ 100 < decimals)%Z) /\
  (forall v, value = Some v -> scientificRange v = true ->
     formatScoreValue host value (Some decimals) = formatScoreValue host value None).
Proof.
  split.
  - intros e. destruct value as [v|]; unfold formatScoreValue.
    + fold (scientificRange v). destruct (scientificRange v) eqn:E.
      * destruct (formatPowerOfTen_returns host v) as (s & -> & _).
        split; [intros Hd; discriminate Hd|]. intros (_ & v' & Hv & Hs & _).
        injection Hv as <-. congruence.
      * destruct (Z_lt_dec decimals 0) as [Hl|Hl];
          [|destruct (Z_lt_dec 100 decimals) as [Hh|Hh]].
        -- rewrite toFixed_throws by lia. split.
           ++ intros H. injection H as <-. split; [reflexivity|].
              exists v. repeat split; auto.
           ++ intros [-> _]. reflexivity.
        -- rewrite toFixed_throws by lia. split.
           ++ intros H. injection H as <-. split; [reflexivity|].
              exists v. repeat split; auto.
           ++ intros [-> _]. reflexivity.
        -- destruct (toFixed_returns v decimals ltac:(lia)) as (s & -> & _).
           split; [intros Hd; discriminate Hd|]. intros (_ & v' & _ & _ & H). lia.
    + split; [intros Hd; discriminate Hd|]. intros (_ & v & H & _). discriminate.
  - intros v -> Hs. unfold formatScoreValue. fold (scientificRange v).
    now rewrite Hs.
Qed.

(** X6: the table cell, the chart tooltip and the error margin print a number
    with the same digits: [formatScoreWithUnit] is [formatScoreValue]
    followed by the unit, [formatTooltipError] is [formatScoreValue], and
    [formatErrorMargin] puts "+/- " in front; none of them fails. *)
Theorem score_texts_agree (v : number) (unit : string) :
  exists s,
    formatScoreValue host (Some v) None = Normal s /\
    formatTooltipError host v = Normal s /\
    formatScoreWithUnit host (Some v) unit = Normal (s ++ " " ++ unit) /\
    formatErrorMargin host (Some v) = Normal ("+/- " ++ s).
Proof.
  destruct (formatScoreValue_returns host (Some v)) as (s & Hs).
  exists s. split; [exact Hs|].
  unfold formatErrorMargin. rewrite Hs.
  unfold formatScoreValue in Hs. unfold formatTooltipError, formatScoreWithUnit.
  destruct (_ || _); rewrite Hs; repeat split.
Qed.

(** X7: [formatRatio] returns "N/A" exactly for null; for a number it returns
    the fixed-point digits followed by "x" when the decimals are within
    0..100 and fails with a RangeError otherwise. *)
Theorem formatRatio_cases (value : option number) (decimals : Z) :
  (formatRatio value (Some decimals) = Normal "N/A" <-> value = None) /\
  (forall v, value = Some v -> (0 <= decimals <= 100)%Z ->
     exists s, toFixed v decimals = Normal s /\
               formatRatio value (Some decimals) = Normal (s ++ "x")) /\
  (forall v, value = Some v -> (decimals < 0 \/ 100 < decimals)%Z ->
     formatRatio value (Some decimals) = Throw RangeError).
Proof.
  split; [|split].
  - destruct value as [v|]; unfold formatRatio; [|tauto].
    split; [|intros Hd; discriminate Hd].
    destruct (Z_lt_dec decimals 0) as [Hl|Hl];
      [|destruct (Z_lt_dec 100 decimals) as [Hh|Hh]].
    + rewrite toFixed_throws by lia. intros Hd; discriminate Hd.
    + rewrite toFixed_throws by lia. intros Hd; discriminate Hd.
    + destruct (toFixed_returns v decimals ltac:(lia)) as (s & -> & Hna).
      simpl. intros H. injection H as H. now apply neverNA_app in H.
  - intros v -> Hd. unfold formatRatio.
    destruct (toFixed_returns v decimals Hd) as (s & -> & _).
    exists s. split; reflexivity.
  - intros v -> Hd. unfold formatRatio. now rewrite toFixed_throws.
Qed.

End NumberFacts.

Lemma formatRatio_cases_witness :
  Formatters.formatRatio (Some (ofZ 2)) (Some 1%Z) = Normal "2.0x" /\
  Formatters.formatRatio (Some (ofZ 2)) (Some 101%Z) = Throw RangeError.
Proof.
  destruct (formatRatio_cases (Some (ofZ 2)) 1%Z) as (_ & H & _).
  destruct (formatRatio_cases (Some (ofZ 2)) 101%Z) as (_ & _ & H').
  split.
  - destruct (H (ofZ 2) eq_refl ltac:(lia)) as (s & Hs & Hr).
    rewrite Hr. vm_compute in Hs. injection Hs as <-. reflexivity.
  - apply (H' (ofZ 2) eq_refl). lia.
Defined.

Lemma formatScoreValue_decimals_witness :
  Formatters.formatScoreValue Sample.host (Some (ofZ 5000)) (Some 200%Z)
  = Formatters.formatScoreValue Sample.host (Some (ofZ 5000)) None /\
  Formatters.formatScoreValue Sample.host (Some (ofZ 5)) (Some 200%Z)
  = Throw RangeError.
Proof.
  destruct (formatScoreValue_decimals Sample.host (Some (ofZ 5000)) 200%Z) as (_ & H).
  destruct (formatScoreValue_decimals Sample.host (Some (ofZ 5)) 200%Z) as (H' & _).
  split.
  - apply (H (ofZ 5000)); reflexivity.
  - apply H'. split; [reflexivity|]. exists (ofZ 5).
    split; [reflexivity|]. split; [reflexivity|]. right. lia.
Defined.

(** * The tree, the sidebar and the view *)

Import TreeNodeState Paths.

Lemma prefix_app (x y : string) : String.prefix x (x ++ y) = true.
Proof.
  induction x as [|c x IH]; simpl; [destruct y; reflexivity|].
  destruct (ascii_dec c c); [exact IH | congruence].
Qed.

Lemma prefix_refl (x : string) : String.prefix x x = true.
Proof. rewrite <- (append_empty x) at 2. apply prefix_app. Qed.

Lemma prefix_length (x s : string) :
  String.prefix x s = true -> (length x <= length s)%nat.
Proof.
  revert s. induction x as [|c x IH]; intros [|d s]; simpl; try lia;
    try (intros H; discriminate H).
  destruct (ascii_dec c d); [|intros H; discriminate H]. intros H. apply IH in H. lia.
Qed.

Lemma prefix_trans (a b c : string) :
  String.prefix a b = true -> String.prefix b c = true -> String.prefix a c = true.
Proof.
  revert b c. induction a as [|x a IH]; intros [|y b] [|z c]; simpl;
    try (intros H; discriminate H); try (intros H H'; discriminate H');
    try reflexivity.
  destruct (ascii_dec x y) as [->|]; [|intros H; discriminate H].
  destruct (ascii_dec y z) as [->|]; [|intros H H'; discriminate H'].
  destruct (ascii_dec z z); [|congruence]. apply IH.
Qed.

(** X8: a tree node is never both the selected node and a parent of the
    selection, and a node that is either starts expanded at every depth. *)
Theorem selection_flags (depth : nat) (selectedPath : string) (node : HierarchyNode) :
  isSelected selectedPath node && isParentOfSelected selectedPath node = false /\
  (isSelected selectedPath node || isParentOfSelected selectedPath node = true ->
   initiallyExpanded depth selectedPath node = true).
Proof.
  unfold isSelected, isParentOfSelected, initiallyExpanded, startsWith. split.
  - destruct (String.eqb_spec selectedPath (path node)) as [-> | _]; [|reflexivity].
    simpl. destruct (String.prefix _ _) eqn:E; [|reflexivity].
    apply prefix_length in E. rewrite length_append in E. simpl in E. lia.
  - intros H. apply orb_true_iff. right. apply orb_true_iff in H.
    destruct H as [H | H].
    + apply String.eqb_eq in H. rewrite H. apply prefix_refl.
    + eapply prefix_trans; [apply (prefix_app _ "/") | exact H].
Qed.

Lemma nodes_each_in (n child : HierarchyNode) (l : list HierarchyNode) :
  In child l -> In n (nodes child) ->
  In n ((fix each (l : list HierarchyNode) : list HierarchyNode :=
           match l with
           | [] => []
           | child :: rest => (nodes child ++ each rest)%list
           end) l).
Proof.
  induction l as [|c l IH]; [contradiction|].
  intros [-> | Hin] Hn; apply in_or_app; [now left | right; now apply IH].
Qed.

Lemma InTree_nodes n h : InTree n h -> In n (nodes h).
Proof.
  induction 1 as [|m child Hc Hn IH].
  - destruct n. now left.
  - destruct m as [nm pth cs comps]. right. simpl in Hc.
    now apply (nodes_each_in n child cs).
Qed.

Lemma nodes_InTree h : forall n, In n (nodes h) -> InTree n h.
Proof.
  induction h as [nm pth cs comps IH] using HierarchyNode_ind.
  intros n [<- | Hin]; [constructor|].
  assert (Hex : exists child, In child cs /\ In n (nodes child)).
  { clear IH. induction cs as [|c l IHl]; [contradiction|].
    apply in_app_or in Hin. destruct Hin as [Hin | Hin].
    - exists c. split; [now left | exact Hin].
    - destruct (IHl Hin) as (child & Hc & Hn). exists child. split; [now right | exact Hn]. }
  destruct Hex as (child & Hc & Hn).
  apply (InTree_child n _ child); [exact Hc|].
  rewrite Forall_forall in IH. now apply IH.
Qed.

Lemma NoDup_map_eq {A B} (f : A -> B) (l : list A) (a b : A) :
  NoDup (map f l) -> In a l -> In b l -> f a = f b -> a = b.
Proof.
  induction l as [|x l IH]; [contradiction|].
  simpl. intros Hnd Ha Hb Hf. inversion Hnd as [|y l' Hx Hl]; subst.
  destruct Ha as [-> | Ha], Hb as [-> | Hb].
  - reflexivity.
  - exfalso. apply Hx. rewrite Hf. now apply in_map.
  - exfalso. apply Hx. rewrite <- Hf. now apply in_map.
  - now apply IH.
Qed.

(** X9: in a tree whose paths are unique, looking a node up by its own path
    gives back that very node. *)
Theorem findNode_finds (h n : HierarchyNode) :
  uniquePaths h -> InTree n h -> path n <> "" ->
  findNode h (path n) = Some n.
Proof.
  intros Hu Hn Hp. pose proof (findNode_search h (path n) Hp) as H.
  destruct (findNode h (path n)) as [m|].
  - destruct H as [Hm Hpm]. f_equal.
    apply (NoDup_map_eq path (nodes h)); auto using InTree_nodes.
  - exfalso. now apply (H n).
Qed.

Lemma findNode_finds_witness :
  findNode
    (mkNode "" "" [mkNode "KDF" "KDF" [mkNode "Pbkdf2" "KDF/Pbkdf2" [] []] []] [])
    "KDF/Pbkdf2"
  = Some (mkNode "Pbkdf2" "KDF/Pbkdf2" [] []).
Proof.
  apply (findNode_finds
    (mkNode "" "" [mkNode "KDF" "KDF" [mkNode "Pbkdf2" "KDF/Pbkdf2" [] []] []] [])
    (mkNode "Pbkdf2" "KDF/Pbkdf2" [] [])).
  - unfold uniquePaths. simpl.
    repeat (constructor; [simpl; intuition discriminate|]). constructor.
  - eapply InTree_child; [left; reflexivity|].
    eapply InTree_child; [left; reflexivity|]. constructor.
  - discriminate.
Defined.

Section SidebarFacts.
Variable host : Host.
Variable decodeURIComponent : string -> completion string.
Variable filterByJmhMode : list BenchmarkComparison -> JmhMode -> list BenchmarkComparison.
Variable getUniqueJmhModes : list BenchmarkComparison -> list JmhMode.

Lemma entryPaths_TreeNode n : forall depth category,
  entryPaths (Sidebar.TreeNode host n depth category) = map path (nodes n).
Proof.
  induction n as [nm pth cs comps IH] using HierarchyNode_ind.
  intros depth category. simpl. f_equal.
  generalize (match depth with 0 => Some nm | S _ => category end). intros cc.
  induction IH as [|c l Hc Hl IHl]; [reflexivity|].
  rewrite map_app, <- (Hc (S depth) cc), <- IHl. reflexivity.
Qed.

Lemma sidebar_paths h p :
  In p (entryPaths (Sidebar.Sidebar host h)) ->
  p = "" \/ exists n, InTree n h /\ path n = p.
Proof.
  unfold Sidebar.Sidebar. destruct h as [nm pth cs comps]. simpl.
  intros [<- | Hin]; [now left|]. right.
  assert (Hex : exists child, In child cs /\ In p (map path (nodes child))).
  { induction cs as [|c l IHl]; [contradiction|].
    simpl in Hin. apply in_app_or in Hin. destruct Hin as [Hin | Hin].
    - exists c. split; [now left|]. now rewrite <- (entryPaths_TreeNode c 0 None).
    - destruct (IHl Hin) as (child & Hc & Hn). exists child. split; [now right | exact Hn]. }
  destruct Hex as (child & Hc & Hn).
  apply in_map_iff in Hn. destruct Hn as (n & Hpn & Hn).
  exists n. split; [|exact Hpn].
  apply (InTree_child n _ child); [exact Hc | now apply nodes_InTree].
Qed.

Lemma sidebar_finds (h : HierarchyNode) (p : string) :
  In p (entryPaths (Sidebar.Sidebar host h)) ->
  exists n, findNode h p = Some n /\ (p <> "" -> InTree n h /\ path n = p).
Proof.
  intros Hin. destruct (String.eqb_spec p "") as [-> | Hne].
  - exists h. split; [apply findNode_empty | congruence].
  - pose proof (findNode_search h p Hne) as H.
    destruct (findNode h p) as [n|]; [exists n; split; auto|].
    destruct (sidebar_paths h p Hin) as [-> | (n & Hn & Hp)]; [congruence|].
    exfalso. now apply (H n).
Qed.

Lemma resolved_not_placeholder (state : ViewState) (h n : HierarchyNode)
    (p message : string) :
  findNode h p = Some n ->
  BenchmarkView host decodeURIComponent filterByJmhMode getUniqueJmhModes state h p
  <> Normal (Placeholder message).
Proof.
  intros Hn. unfold BenchmarkView. rewrite Hn.
  destruct (getBreadcrumbs _ _ _) as [crumbs|e]; simpl; [|discriminate].
  match goal with |- context [bind ?c _] => destruct c as [t|e] end;
    simpl; [|discriminate].
  destruct (sectionsOf _ _ _ _ _) as [ss|e]; simpl; discriminate.
Qed.

(** X10: every path a button of the sidebar selects resolves to a node of the
    tree, so the view never answers a click with the placeholder that asks
    for a selection. *)
Theorem sidebar_selection_resolves (state : ViewState) (h : HierarchyNode) (p : string) :
  In p (entryPaths (Sidebar.Sidebar host h)) ->
  (exists n, findNode h p = Some n /\ (p <> "" -> InTree n h /\ path n = p)) /\
  forall message,
    BenchmarkView host decodeURIComponent filterByJmhMode getUniqueJmhModes state h p
    <> Normal (Placeholder message).
Proof.
  intros Hin. destruct (sidebar_finds h p Hin) as (n & Hn & Hp).
  split.
  - exists n. split; [exact Hn | exact Hp].
  - intros message. now apply (resolved_not_placeholder state h n).
Qed.

End SidebarFacts.

Lemma sidebar_selection_resolves_witness :
  findNode
    (mkNode "" "" [mkNode "KDF" "KDF" [mkNode "Pbkdf2" "KDF/Pbkdf2" [] []] []] [])
    "KDF/Pbkdf2" <> None.
Proof.
  destruct (sidebar_selection_resolves Sample.host Sample.decodeURIComponent
              Sample.filterByJmhMode Sample.getUniqueJmhModes initialState
              (mkNode "" "" [mkNode "KDF" "KDF" [mkNode "Pbkdf2" "KDF/Pbkdf2" [] []] []] [])
              "KDF/Pbkdf2") as [(n & Hn & _) _].
  - simpl. right. right. left. reflexivity.
  - rewrite Hn. discriminate.
Defined.

(** * Breadcrumbs *)

Lemma splitSlash_nonempty s : splitSlash s <> [].
Proof.
  destruct s as [|c s]; simpl; [discriminate|].
  destruct (Ascii.eqb c "/"); [discriminate|].
  destruct (splitSlash s); discriminate.
Qed.

(** Splitting at the slashes and joining with slashes gives the string
    back. *)
Lemma join_splitSlash s : join "/" (splitSlash s) = s.
Proof.
  induction s as [|c s IH]; [reflexivity|]. simpl.
  destruct (Ascii.eqb_spec c "/") as [-> | Hc].
  - rewrite join_cons by apply splitSlash_nonempty. simpl. now rewrite IH.
  - destruct (splitSlash s) as [|p l] eqn:E; [now apply splitSlash_nonempty in E|].
    destruct l as [|q l]; simpl in *; now rewrite IH.
Qed.

Lemma splitSlash_head s p l :
  splitSlash s = p :: l -> s <> "" -> startsWith s "/" = false -> p <> "".
Proof.
  destruct s as [|c s]; [congruence|]. intros H _. unfold startsWith. simpl in *.
  destruct (Ascii.eqb_spec c "/") as [-> | Hc].
  - destruct (ascii_dec "/" "/"); [|congruence]. destruct s; discriminate.
  - intros _. destruct (splitSlash s); injection H as <- _; discriminate.
Qed.

Lemma truthy_append a b : truthy a = true -> truthy (a ++ b) = true.
Proof. destruct a; [discriminate | reflexivity]. Qed.

Lemma pathsFrom_trail cur : forall parts,
  truthy cur = true -> parts <> [] ->
  last (pathsFrom cur parts) "" = cur ++ "/" ++ join "/" parts /\
  Forall (fun q => leadsTo q (cur ++ "/" ++ join "/" parts)) (pathsFrom cur parts).
Proof.
  intros parts. revert cur.
  induction parts as [|a r IH]; intros cur Hc Hne; [congruence|].
  cbn [pathsFrom]. rewrite Hc.
  destruct r as [|b r'].
  - simpl. split; [reflexivity|]. constructor; [|constructor]. now left.
  - assert (Ht : truthy (cur ++ "/" ++ a) = true) by now apply truthy_append.
    destruct (IH (cur ++ "/" ++ a) Ht ltac:(discriminate)) as [Hl Hf].
    assert (Hw : (cur ++ "/" ++ a) ++ "/" ++ join "/" (b :: r')
                 = cur ++ "/" ++ join "/" (a :: b :: r')).
    { rewrite (join_cons "/" a (b :: r')) by discriminate.
      now rewrite !append_assoc. }
    rewrite Hw in Hl, Hf. split.
    + change (last (?x :: pathsFrom ?c (b :: r')) "")
        with (last (pathsFrom c (b :: r')) "") in |- *.
      exact Hl.
    + constructor; [|exact Hf]. right. unfold startsWith.
      rewrite <- Hw. rewrite <- (append_assoc (cur ++ "/" ++ a) "/").
      apply prefix_app.
Qed.

Section BreadcrumbFacts.
Variable host : Host.
Variable decodeURIComponent : string -> completion string.

Lemma formatBreadcrumbPart_outcome part i category :
  match decodeURIComponent part with
  | Normal _ => exists name, formatBreadcrumbPart host decodeURIComponent part i category
                             = Normal name
  | Throw e => formatBreadcrumbPart host decodeURIComponent part i category = Throw e
  end.
Proof.
  unfold formatBreadcrumbPart. destruct (decodeURIComponent part); simpl; eauto.
Qed.

Lemma breadcrumbsFrom_returns parts : forall i cur category,
  Forall (decodes decodeURIComponent) parts ->
  exists more,
    breadcrumbsFrom host decodeURIComponent parts i cur category = Normal more /\
    map snd more = pathsFrom cur parts.
Proof.
  induction parts as [|part rest IH]; intros i cur category Hd;
    cbn [breadcrumbsFrom]; [exists []; split; reflexivity|].
  inversion Hd as [|x l [d Hx] Hl]; subst.
  pose proof (formatBreadcrumbPart_outcome part i category) as Hp.
  rewrite Hx in Hp. destruct Hp as (name & ->).
  destruct (IH (S i) (if truthy cur then cur ++ "/" ++ part else part) category Hl)
    as (more & -> & Hm).
  simpl. eexists. split; [reflexivity|]. simpl. now rewrite Hm.
Qed.

Lemma breadcrumbsFrom_throws parts : forall i cur category e,
  breadcrumbsFrom host decodeURIComponent parts i cur category = Throw e <->
  exists before part after,
    parts = (before ++ part :: after)%list /\
    Forall (decodes decodeURIComponent) before /\
    decodeURIComponent part = Throw e.
Proof.
  induction parts as [|part rest IH]; intros i cur category e; cbn [breadcrumbsFrom].
  - split; [intros H; discriminate H|]. intros (before & p & after & H & _).
    destruct before; discriminate.
  - pose proof (formatBreadcrumbPart_outcome part i category) as Hp.
    destruct (decodeURIComponent part) as [d|e'] eqn:Hd.
    + destruct Hp as (name & ->). simpl.
      specialize (IH (S i) (if truthy cur then cur ++ "/" ++ part else part) category e).
      destruct (breadcrumbsFrom _ _ rest _ _ _) as [more|e''] eqn:Hb; simpl.
      * split; [intros H; discriminate H|].
        intros (before & p & after & H & Hf & Hp).
        destruct before as [|b before]; simpl in H; injection H as <- ->.
        -- congruence.
        -- exfalso. assert (H' : Normal more = Throw e)
             by (apply IH; inversion Hf; subst; eauto 6).
           discriminate H'.
      * split.
        -- intros H. injection H as <-.
           destruct (proj1 IH eq_refl) as (before & p & after & -> & Hf & Hp).
           exists (part :: before), p, after. split; [reflexivity|].
           split; [constructor; [now exists d | exact Hf] | exact Hp].
        -- intros (before & p & after & H & Hf & Hp).
           destruct before as [|b before]; simpl in H; injection H as <- ->.
           ++ congruence.
           ++ inversion Hf; subst. f_equal.
              assert (Throw e'' = @Throw (list (string * string)) e) as H'
                by (apply IH; eauto 6).
              now injection H'.
    + rewrite Hp. simpl. split.
      * intros H. injection H as <-. exists [], part, rest. repeat split; auto.
      * intros (before & p & after & H & Hf & Hp').
        destruct before as [|b before]; simpl in H; injection H as <- ->.
        -- congruence.
        -- inversion Hf as [|x l [d Hx] Hl]; subst. congruence.
Qed.

(** X11: for a non-empty path that does not start with a slash and whose
    segments all decode, the breadcrumbs are "All" for the root followed by
    one crumb per segment; the path of every crumb after "All" is the
    selected path itself or a path that the selected path continues after a
    slash, and the last crumb is the selected path. *)
Theorem getBreadcrumbs_trail (path : string) :
  path <> "" -> startsWith path "/" = false ->
  Forall (decodes decodeURIComponent) (splitSlash path) ->
  exists more,
    getBreadcrumbs host decodeURIComponent path = Normal (("All", "") :: more) /\
    List.length more = List.length (splitSlash path) /\
    last (map snd more) "" = path /\
    Forall (fun crumb => leadsTo (snd crumb) path) more.
Proof.
  intros Hne Hs Hd. unfold getBreadcrumbs.
  assert (Ht : truthy path = true)
    by (unfold truthy; now apply negb_true_iff, String.eqb_neq).
  rewrite Ht. simpl.
  destruct (breadcrumbsFrom_returns (splitSlash path) 0 "" (hd "" (splitSlash path)) Hd)
    as (more & -> & Hm).
  simpl. exists more. split; [reflexivity|].
  split; [rewrite <- (length_map snd), Hm; clear;
          generalize ""; induction (splitSlash path); intros; simpl; auto|].
  rewrite Forall_forall. setoid_rewrite <- Forall_forall.
  rewrite <- (Forall_map snd (fun q => leadsTo q path)), Hm.
  pose proof (join_splitSlash path) as Hj.
  destruct (splitSlash path) as [|p r] eqn:E; [now apply splitSlash_nonempty in E|].
  pose proof (splitSlash_head path p r E Hne Hs) as Hp.
  assert (Htp : truthy p = true)
    by (unfold truthy; now apply negb_true_iff, String.eqb_neq).
  cbn [pathsFrom]. change (truthy "") with false. cbv iota.
  destruct r as [|b r'].
  - simpl in *. subst p. split; [reflexivity|].
    constructor; [|constructor]. now left.
  - rewrite (join_cons "/" p (b :: r')) in Hj by discriminate.
    destruct (pathsFrom_trail p (b :: r') Htp ltac:(discriminate)) as [Hl Hf].
    rewrite Hj in Hl, Hf. split.
    + exact Hl.
    + constructor; [|exact Hf]. right. unfold startsWith.
      rewrite <- Hj. rewrite <- (append_assoc p "/"). apply prefix_app.
Qed.

(** X12: [getBreadcrumbs] fails exactly when the path is not empty and
    [decodeURIComponent] fails on one of its segments, and then with the
    error of the first such segment. *)
Theorem getBreadcrumbs_throws (path : string) (e : JsError) :
  getBreadcrumbs host decodeURIComponent path = Throw e <->
  path <> "" /\
  exists before part after,
    splitSlash path = (before ++ part :: after)%list /\
    Forall (decodes decodeURIComponent) before /\
    decodeURIComponent part = Throw e.
Proof.
  unfold getBreadcrumbs, truthy. destruct (String.eqb_spec path "") as [-> | Hne]; simpl.
  - split; [intros H; discriminate H | intros [H _]; congruence].
  - pose proof (breadcrumbsFrom_throws (splitSlash path) 0 "" (hd "" (splitSlash path)) e)
      as H.
    destruct (breadcrumbsFrom _ _ _ _ _ _) as [more|e']; simpl.
    + split; [intros H'; discriminate H'|]. intros [_ Hex]. apply H in Hex. discriminate.
    + split.
      * intros He. injection He as <-. split; [exact Hne|]. now apply H.
      * intros [_ Hex]. apply H in Hex. exact Hex.
Qed.

(** X13: the sidebar and the breadcrumbs give a node the same display name:
    for a name without escapes, [formatBreadcrumbPart] at an index is
    [formatNodeName] of the sidebar at that depth, under the same
    category. *)
Theorem breadcrumb_name_is_sidebar_name (name : string) (depth : nat) (category : string) :
  decodeURIComponent name = Normal name ->
  formatBreadcrumbPart host decodeURIComponent name depth category
  = Normal (Sidebar.formatNodeName host name depth (Some category)).
Proof.
  intros Hd. unfold formatBreadcrumbPart, Sidebar.formatNodeName. rewrite Hd. simpl.
  destruct depth as [|[|[|d]]]; try reflexivity.
  destruct (String.eqb_spec category "KDF") as [-> | Hne]; [reflexivity|].
  f_equal.
  destruct category as [|[[] [] [] [] [] [] [] []] category]; try reflexivity.
  destruct category as [|[[] [] [] [] [] [] [] []] category]; try reflexivity.
  destruct category as [|[[] [] [] [] [] [] [] []] category]; try reflexivity.
  destruct category; [congruence | reflexivity].
Qed.

End BreadcrumbFacts.

Lemma getBreadcrumbs_trail_witness :
  exists more,
    getBreadcrumbs Sample.host Sample.decodeURIComponent "KDF/Pbkdf2/SHA256"
    = Normal (("All", "") :: more) /\
    List.length more = 3%nat /\
    last (map snd more) "" = "KDF/Pbkdf2/SHA256".
Proof.
  destruct (getBreadcrumbs_trail Sample.host Sample.decodeURIComponent "KDF/Pbkdf2/SHA256")
    as (more & H1 & H2 & H3 & _).
  - discriminate.
  - reflexivity.
  - simpl. repeat constructor; eexists; reflexivity.
  - exists more. repeat split; assumption.
Defined.

Lemma breadcrumb_name_is_sidebar_name_witness :
  formatBreadcrumbPart Sample.host Sample.decodeURIComponent "SHA256" 2 "KDF"
  = Normal "SHA256" /\
  formatBreadcrumbPart Sample.host Sample.decodeURIComponent "keyGen" 2 "PQC"
  = Normal (Sidebar.formatNodeName Sample.host "keyGen" 2 (Some "PQC")).
Proof.
  split.
  - reflexivity.
  - apply (breadcrumb_name_is_sidebar_name Sample.host Sample.decodeURIComponent
             "keyGen" 2 "PQC").
    reflexivity.
Defined.

(** * Sections by mode *)

Lemma mode_eqb_eq a b : BenchmarkView.mode_eqb a b = true <-> a = b.
Proof. destruct a, b; simpl; split; congruence. Qed.

Lemma mode_eqb_refl a : BenchmarkView.mode_eqb a a = true.
Proof. now destruct a. Qed.

Lemma groupInsert_keys c g k :
  In k (map fst (groupInsert c g)) <-> k = jmhMode c \/ In k (map fst g).
Proof.
  induction g as [|[m l] g IH]; simpl; [intuition congruence|].
  destruct (BenchmarkView.mode_eqb m (jmhMode c)) eqn:E; simpl.
  - apply mode_eqb_eq in E. subst m. intuition congruence.
  - rewrite IH. tauto.
Qed.

Lemma groupInsert_NoDup c g :
  NoDup (map fst g) -> NoDup (map fst (groupInsert c g)).
Proof.
  induction g as [|[m l] g IH]; simpl; intros H.
  - constructor; [tauto | constructor].
  - inversion H as [|x xs Hx Hxs]; subst.
    destruct (BenchmarkView.mode_eqb m (jmhMode c)) eqn:E; simpl.
    + constructor; assumption.
    + constructor; [|now apply IH].
      rewrite groupInsert_keys. intros [-> | Hin]; [|contradiction].
      now rewrite mode_eqb_refl in E.
Qed.

Lemma mode_eqb_neq a b : BenchmarkView.mode_eqb a b = false <-> a <> b.
Proof. destruct a, b; simpl; split; congruence. Qed.

Lemma groupInsert_In c g m l :
  NoDup (map fst g) ->
  In (m, l) (groupInsert c g) ->
  (m <> jmhMode c /\ In (m, l) g) \/
  (m = jmhMode c /\
   ((exists l0, In (m, l0) g /\ l = (l0 ++ [c])%list) \/
    (~ In m (map fst g) /\ l = [c]))).
Proof.
  induction g as [|[m' l'] g IH]; simpl; intros Hnd.
  - intros [H | []]. injection H as <- <-. right. split; [reflexivity|]. right. tauto.
  - inversion Hnd as [|x xs Hx Hxs]; subst.
    destruct (BenchmarkView.mode_eqb m' (jmhMode c)) eqn:E; simpl.
    + apply mode_eqb_eq in E. subst m'. intros [H | H].
      * injection H as <- <-. right. split; [reflexivity|]. left. exists l'. tauto.
      * left. split; [|tauto]. intros ->. apply Hx.
        change (jmhMode c) with (fst (jmhMode c, l)). now apply in_map.
    + apply mode_eqb_neq in E. intros [H | H].
      * injection H as <- <-. left. tauto.
      * destruct (IH Hxs H) as [[Hne Hin] | [-> [(l0 & Hin & ->) | [Hnin ->]]]].
        -- left. tauto.
        -- right. split; [reflexivity|]. left. exists l0. tauto.
        -- right. split; [reflexivity|]. right. split; [|reflexivity].
           intros [Heq | Hin]; [congruence | contradiction].
Qed.

Lemma groupByJmhMode_snoc cs c :
  groupByJmhMode (cs ++ [c]) = groupInsert c (groupByJmhMode cs).
Proof. unfold groupByJmhMode. now rewrite fold_left_app. Qed.

Lemma groupByJmhMode_keys (cs : list BenchmarkComparison) :
  NoDup (map fst (groupByJmhMode cs)) /\
  (forall c, In c cs -> In (jmhMode c) (map fst (groupByJmhMode cs))).
Proof.
  induction cs as [|c cs [Hnd Hk]] using rev_ind.
  - split; [constructor | intros c []].
  - rewrite groupByJmhMode_snoc. split; [now apply groupInsert_NoDup|].
    intros x Hx. apply groupInsert_keys. apply in_app_or in Hx.
    destruct Hx as [Hx | [-> | []]]; [right; now apply Hk | now left].
Qed.

(** X14: grouping by mode puts every comparison in the one group of its mode:
    no mode has two groups, no group is empty, and a group holds exactly
    the comparisons of its mode, in their order. *)
Theorem groupByJmhMode_groups (cs : list BenchmarkComparison) :
  NoDup (map fst (groupByJmhMode cs)) /\
  (forall m l, In (m, l) (groupByJmhMode cs) ->
     l <> [] /\ l = filter (fun c => BenchmarkView.mode_eqb (jmhMode c) m) cs) /\
  (forall c, In c cs -> In (jmhMode c) (map fst (groupByJmhMode cs))).
Proof.
  destruct (groupByJmhMode_keys cs) as [Hkeys Hall].
  split; [exact Hkeys|]. split; [|exact Hall]. clear Hkeys Hall.
  induction cs as [|c cs IH] using rev_ind; [intros m l []|].
  destruct (groupByJmhMode_keys cs) as [Hnd Hk].
  rewrite groupByJmhMode_snoc. intros m l Hin. rewrite filter_snoc.
  destruct (groupInsert_In c _ m l Hnd Hin)
    as [[Hne Hin'] | [-> [(l0 & Hin' & ->) | [Hnin ->]]]].
  - destruct (IH m l Hin') as [Hl1 Hl2]. split; [exact Hl1|].
    replace (BenchmarkView.mode_eqb (jmhMode c) m) with false
      by (symmetry; apply mode_eqb_neq; congruence).
    now rewrite app_nil_r.
  - destruct (IH _ l0 Hin') as [Hl1 Hl2]. rewrite mode_eqb_refl.
    split; [destruct l0; discriminate | now rewrite <- Hl2].
  - rewrite mode_eqb_refl. split; [discriminate|].
    rewrite filter_none; [reflexivity|].
    intros x Hx. apply mode_eqb_neq. intros Heq. apply Hnin.
    rewrite <- Heq. now apply Hk.
Qed.

Lemma groupByJmhMode_nil cs : groupByJmhMode cs = [] <-> cs = [].
Proof.
  split; [|now intros ->].
  intros H. destruct cs as [|c cs]; [reflexivity|].
  destruct (groupByJmhMode_keys (c :: cs)) as (_ & Hk).
  specialize (Hk c ltac:(now left)). rewrite H in Hk. contradiction.
Qed.

Lemma modes_bound (l : list JmhMode) : NoDup l -> (List.length l <= 4)%nat.
Proof.
  intros H. apply (NoDup_incl_length (l' := [thrpt; avgt; ss; sample]) H).
  intros []; simpl; tauto.
Qed.

(** * The view *)

Section ViewOutcome.
Variable host : Host.
Variable decodeURIComponent : string -> completion string.
Variable filterByJmhMode : list BenchmarkComparison -> JmhMode -> list BenchmarkComparison.
Variable getUniqueJmhModes : list BenchmarkComparison -> list JmhMode.

Lemma sectionsOf_returns mode displayTitle path groups :
  exists ss,
    sectionsOf host mode displayTitle path groups = Normal ss /\
    map modeTitle ss = map (fun g => JMH_MODE_LABELS (fst g)) groups.
Proof.
  induction groups as [|[m cs] groups (ss & IH & Ht)]; cbn [sectionsOf].
  - exists []. split; reflexivity.
  - destruct (BenchmarkTable_returns host cs displayTitle path m) as (t & Hrt).
    rewrite IH. destruct mode; try rewrite Hrt; simpl;
      (eexists; split; [reflexivity | simpl; now rewrite Ht]).
Qed.

(** X15: the root is always shown: for the empty selected path the view is
    rendered without failure, with the single crumb "All Benchmarks", the
    root's name (or "All Benchmarks") as title, the number of the root's
    comparisons, and one section per mode of the comparisons shown. *)
Theorem root_view (state : ViewState) (h : HierarchyNode) :
  exists panel,
    BenchmarkView host decodeURIComponent filterByJmhMode getUniqueJmhModes state h ""
    = Normal (Content panel) /\
    breadcrumbs panel = [("All Benchmarks", "")] /\
    title panel = (if truthy (name h) then name h else "All Benchmarks") /\
    comparisonCount panel = List.length (comparisons h) /\
    map modeTitle (sections panel)
    = map (fun g => JMH_MODE_LABELS (fst g))
          (groupByJmhMode
             match selectedJmhMode state with
             | None => comparisons h
             | Some m => filterByJmhMode (comparisons h) m
             end).
Proof.
  unfold BenchmarkView. rewrite findNode_empty.
  change (getBreadcrumbs host decodeURIComponent "") with (Normal [("All Benchmarks", "")]).
  change (truthy "") with false. cbv iota. cbn [bind].
  match goal with
  | |- context [sectionsOf host ?a ?b ?c ?d] =>
    destruct (sectionsOf_returns a b c d) as (ss & -> & Hss)
  end.
  cbn [bind]. eexists. split; [reflexivity|]. simpl. repeat split. exact Hss.
Qed.

(** X16: the view fails only where [decodeURIComponent] does: if rendering a
    selected path throws, then decoding a segment of the path, or the name
    of the selected node, throws that error. *)
Theorem view_fails_only_decoding (state : ViewState) (h : HierarchyNode)
    (selectedPath : string) (e : JsError) :
  BenchmarkView host decodeURIComponent filterByJmhMode getUniqueJmhModes
    state h selectedPath = Throw e ->
  exists part, decodeURIComponent part = Throw e /\
    (In part (splitSlash selectedPath) \/
     exists node, findNode h selectedPath = Some node /\ part = name node).
Proof.
  unfold BenchmarkView. destruct (findNode h selectedPath) as [node|]; [|discriminate].
  unfold getBreadcrumbs.
  destruct (truthy selectedPath) eqn:Ht; cbn [negb].
  - pose proof (breadcrumbsFrom_throws host decodeURIComponent (splitSlash selectedPath) 0 ""
                  (hd "" (splitSlash selectedPath))) as Hb.
    destruct (breadcrumbsFrom _ _ _ _ _ _) as [more|e'].
    + cbn [bind].
      pose proof (formatBreadcrumbPart_outcome host decodeURIComponent (name node)
                    (List.length (splitSlash selectedPath) - 1)
                    (hd "" (splitSlash selectedPath))) as Hp.
      destruct (decodeURIComponent (name node)) as [d|e'] eqn:Hd.
      * destruct Hp as (t & ->). cbn [bind].
        match goal with
        | |- context [sectionsOf host ?a ?b ?c ?d] =>
          destruct (sectionsOf_returns a b c d) as (ss & -> & _)
        end.
        discriminate.
      * rewrite Hp. cbn [bind]. intros H. injection H as <-.
        exists (name node). split; [exact Hd|]. right. now exists node.
    + cbn [bind]. intros H. injection H as <-.
      destruct (proj1 (Hb e') eq_refl) as (before & part & after & Hs & _ & Hp).
      exists part. split; [exact Hp|]. left. rewrite Hs. apply in_elt.
  - cbn [bind].
    match goal with
    | |- context [sectionsOf host ?a ?b ?c ?d] =>
      destruct (sectionsOf_returns a b c d) as (ss & -> & _)
    end.
    discriminate.
Qed.

End ViewOutcome.

Lemma view_fails_only_decoding_witness :
  exists part, Decoder.decodePlain part = Throw URIError /\
    (In part (splitSlash "KDF/%") \/
     exists node,
       findNode (mkNode "" "" [mkNode "KDF" "KDF" [mkNode "%" "KDF/%" [] []] []] []) "KDF/%"
       = Some node /\ part = name node).
Proof.
  apply (view_fails_only_decoding Sample.host Decoder.decodePlain
           Sample.filterByJmhMode Sample.getUniqueJmhModes initialState
           (mkNode "" "" [mkNode "KDF" "KDF" [mkNode "%" "KDF/%" [] []] []] [])
           "KDF/%" URIError).
  reflexivity.
Defined.

(** * The tooltip and the table *)

Section TooltipFacts.
Variable host : Host.
Import Formatters.

Lemma formatScoreWithUnit_returns value unit :
  exists s, formatScoreWithUnit host value unit = Normal s /\
    match value with
    | None => s = "N/A"
    | Some v => exists digits, formatScoreValue host (Some v) None = Normal digits /\
                               s = digits ++ " " ++ unit
    end.
Proof.
  destruct value as [v|]; [|exists "N/A"; split; reflexivity].
  destruct (formatScoreValue_returns host (Some v)) as (d & Hd).
  exists (d ++ " " ++ unit). split; [|exists d; split; [exact Hd | reflexivity]].
  unfold formatScoreValue in Hd. unfold formatScoreWithUnit.
  destruct (_ || _); rewrite Hd; reflexivity.
Qed.

Lemma formatTooltipError_returns v :
  exists s, formatTooltipError host v = Normal s /\
            formatErrorMargin host (Some v) = Normal ("+/- " ++ s).
Proof.
  destruct (formatScoreValue_returns host (Some v)) as (d & Hd).
  exists d. unfold formatErrorMargin. rewrite Hd. split; [|reflexivity].
  unfold formatScoreValue in Hd. exact Hd.
Qed.

Lemma tooltipError_returns (o : option number) :
  exists t, BenchmarkChart.optionally (option_map (formatTooltipError host) o) = Normal t /\
    match o with
    | None => t = None
    | Some v => exists s, t = Some s /\
                          formatErrorMargin host (Some v) = Normal ("+/- " ++ s)
    end.
Proof.
  destruct o as [v|]; simpl; [|eauto].
  destruct (formatTooltipError_returns v) as (s & -> & Hs). simpl. eauto.
Qed.

Lemma append_not_empty a b : b <> "" -> a ++ b <> "".
Proof. destruct a; simpl; [auto | discriminate]. Qed.

Lemma tooltipDiffPercent_returns data :
  exists s, BenchmarkChart.tooltipDiffPercent data = Normal s /\
    (s = "" <->
     BenchmarkChart.bc data = None \/ BenchmarkChart.jostle data = None \/
     exists b, BenchmarkChart.bc data = Some b /\ strictEq b (ofZ 0) = true).
Proof.
  unfold BenchmarkChart.tooltipDiffPercent, BenchmarkChart.percent, strictNe.
  destruct (BenchmarkChart.bc data) as [b|]; [|exists ""; split; [reflexivity | tauto]].
  destruct (BenchmarkChart.jostle data) as [j|];
    [|exists ""; split; [reflexivity | tauto]].
  destruct (strictEq b (ofZ 0)) eqn:E; unfold strictEq in E; rewrite E; cbn [negb].
  - exists "". split; [reflexivity|]. split; [|reflexivity].
    intros _. right. right. exists b. split; [reflexivity | exact E].
  - assert (Hno : forall s t : string, t <> "" ->
              (s ++ t = "" <->
               @None number = None :> option number /\ False \/
               Some j = None \/ exists b0, Some b = Some b0 /\ SFeqb b0 (ofZ 0) = true)).
    { intros s t Ht. split.
      - intros H. now apply append_not_empty in H.
      - intros [[_ []] | [H | (b0 & H & H')]]; [discriminate|].
        injection H as <-. congruence. }
    destruct (BenchmarkChart.jmhMode data);
      match goal with
      | |- context [if ?c then _ else _] => destruct c
      end;
      match goal with
      | |- context [toFixed ?x 1] =>
        destruct (toFixed_returns x 1 ltac:(lia)) as (s & -> & _)
      end;
      cbn [bind]; eexists; (split; [reflexivity|]);
      (split; [intros H; now apply append_not_empty in H |
               intros [H | [H | (b0 & H & H')]]; try discriminate;
               injection H as <-; unfold strictEq in H'; congruence]).
Qed.



(** X17: the tooltip is always rendered: it is absent exactly when the chart is
    not active or there is no payload, its verdict (ratio, winner and
    difference) is there exactly when both scores are, and the difference
    is left empty exactly when the BC score is zero. *)
Theorem tooltip_outcome (active : bool) (payload : option (list BenchmarkChart.ChartDataPoint)) :
  exists t,
    BenchmarkChart.CustomTooltip host active payload = Normal t /\
    (t = None <-> active = false \/ payload = None \/ payload = Some []) /\
    forall data rest tip,
      payload = Some (data :: rest) -> t = Some tip ->
      (BenchmarkChart.verdict tip = None <->
       BenchmarkChart.bc data = None \/ BenchmarkChart.jostle data = None) /\
      forall v, BenchmarkChart.verdict tip = Some v ->
        BenchmarkChart.winner v = BenchmarkChart.tooltipWinner data /\
        (BenchmarkChart.diffPercent v = "" <->
         exists b, BenchmarkChart.bc data = Some b /\ strictEq b (ofZ 0) = true).
Proof.
  unfold BenchmarkChart.CustomTooltip.
  destruct active; [|exists None; repeat split; auto; discriminate].
  destruct payload as [[|data rest]|];
    [exists None; repeat split; auto; discriminate | |
     exists None; repeat split; auto; discriminate].
  destruct (tooltipDiffPercent_returns data) as (diff & -> & Hdiff).
  destruct (formatScoreWithUnit_returns (BenchmarkChart.bc data) (BenchmarkChart.unit data))
    as (s1 & -> & _).
  destruct (tooltipError_returns (BenchmarkChart.bcError data)) as (e1 & -> & _).
  destruct (formatScoreWithUnit_returns (BenchmarkChart.jostle data) (BenchmarkChart.unit data))
    as (s2 & -> & _).
  destruct (tooltipError_returns (BenchmarkChart.jostleError data)) as (e2 & -> & _).
  pose proof (tooltipRatio_returns data) as Hr.
  destruct (BenchmarkChart.tooltipRatio data) as [r|] eqn:Er.
  - destruct Hr as (s & ->). cbn [bind BenchmarkChart.optionally].
    eexists. split; [reflexivity|].
    split; [split; [discriminate | intros [H | [H | H]]; discriminate]|].
    intros d rest' tip Hp Ht. injection Hp as <- <-. injection Ht as <-.
    cbn [BenchmarkChart.verdict option_map].
    unfold BenchmarkChart.tooltipRatio in Er.
    destruct (BenchmarkChart.bc data) as [b|] eqn:Eb; [|discriminate].
    destruct (BenchmarkChart.jostle data) as [j|] eqn:Ej; [|discriminate].
    split; [split; [discriminate | intros [H | H]; discriminate]|].
    intros v Hv. injection Hv as <-. cbn. split; [reflexivity|].
    rewrite Hdiff. split.
    + intros [H | [H | H]]; [discriminate | discriminate | exact H].
    + intros H. right. right. exact H.
  - cbn [bind BenchmarkChart.optionally].
    eexists. split; [reflexivity|].
    split; [split; [discriminate | intros [H | [H | H]]; discriminate]|].
    intros d rest' tip Hp Ht. injection Hp as <- <-. injection Ht as <-.
    cbn [BenchmarkChart.verdict option_map].
    split; [split; [intros _; exact Hr | reflexivity]|].
    intros v Hv. discriminate.
Qed.

Lemma rows_keys jmhMode context cs :
  exists rs, BenchmarkTable.rows host jmhMode context cs = Normal rs /\
    map BenchmarkTable.key rs = map id cs /\
    map BenchmarkTable.winner rs
    = map (fun c => fst (BenchmarkTable.rowWinner jmhMode c)) cs.
Proof.
  induction cs as [|c cs (rs & IH & Hk & Hw)]; cbn [BenchmarkTable.rows].
  - exists []. repeat split.
  - destruct (row_returns host jmhMode context c) as (r & Hr & Hrw & _).
    rewrite Hr, IH. cbn [bind]. exists (r :: rs). split; [reflexivity|].
    simpl. rewrite Hk, Hw, Hrw. split; [|reflexivity].
    f_equal. unfold BenchmarkTable.row in Hr.
    destruct (BenchmarkTable.rowWinner jmhMode c) as [w k].
    destruct (formatScoreValue host (bcScore c) None); [|discriminate].
    destruct (formatErrorMargin host (bcError c)); [|discriminate].
    destruct (formatScoreValue host (jostleScore c) None); [|discriminate].
    destruct (formatErrorMargin host (jostleError c)); [|discriminate].
    destruct (BenchmarkTable.ratioText c); [|discriminate].
    cbn [bind] in Hr. injection Hr as <-. reflexivity.
Qed.

(** X18: the chart and the table of a section show the same comparisons in
    the same order: one bar group and one row per comparison, the row keyed
    by the comparison's id. The subtitle of the table is the mode label
    with the unit; the subtitle of the chart is that text, followed by the
    note that the axis is scaled exactly when the axis domain of the chart
    is adjusted. Both say that there is no data exactly for the empty
    list. *)
Theorem chart_and_table_agree (comparisons : list BenchmarkComparison)
    (title path : string) (jmhMode : JmhMode) :
  match comparisons with
  | [] =>
    (exists message, BenchmarkTable.BenchmarkTable host comparisons title path jmhMode
                     = Normal (BenchmarkTable.Empty message)) /\
    (exists message, BenchmarkChart.BenchmarkChart host comparisons title path jmhMode
                     = BenchmarkChart.Empty message)
  | first :: _ =>
    exists rows points,
      let subtitle := JMH_MODE_LABELS jmhMode ++ " (" ++ scoreUnit first ++ ")" in
      let axis := BenchmarkChart.domain points in
      BenchmarkTable.BenchmarkTable host comparisons title path jmhMode
      = Normal (BenchmarkTable.Table (title ++ " - Detailed Data") subtitle rows) /\
      BenchmarkChart.BenchmarkChart host comparisons title path jmhMode
      = BenchmarkChart.Chart title
          (subtitle ++ if BenchmarkChart.useAdjustedDomain axis
                       then " · Axis scaled for visibility" else "")
          (BenchmarkChart.domainMin axis, BenchmarkChart.domainMax axis) points /\
      map BenchmarkTable.key rows = map id comparisons /\
      map BenchmarkChart.fullData points = comparisons
  end.
Proof.
  destruct comparisons as [|c cs]; [split; eexists; reflexivity|].
  unfold BenchmarkTable.BenchmarkTable, BenchmarkChart.BenchmarkChart.
  destruct (rows_keys jmhMode (Label.labelContext (c :: cs)) (c :: cs))
    as (rs & -> & Hk & _).
  cbn [bind]. do 2 eexists. cbv zeta.
  split; [reflexivity|]. split; [reflexivity|].
  split; [exact Hk|].
  rewrite map_map. cbn [BenchmarkChart.chartPoint BenchmarkChart.fullData].
  apply map_id.
Qed.

(** X19: the tooltip of a bar and the row of the table agree on a comparison:
    the verdict is missing exactly when the row's winner is "N/A", the
    winner is the same, the score lines are the row's score cells followed
    by the unit, and the error lines are the row's error cells. *)
Theorem tooltip_agrees_with_row (jmhMode : JmhMode)
    (context context' : Label.LabelContext) (c : BenchmarkComparison) :
  exists r tip,
    BenchmarkTable.row host jmhMode context c = Normal r /\
    BenchmarkChart.CustomTooltip host true
      (Some [BenchmarkChart.chartPoint host jmhMode context' c]) = Normal (Some tip) /\
    (BenchmarkChart.verdict tip = None <-> BenchmarkTable.winner r = "N/A") /\
    (forall v, BenchmarkChart.verdict tip = Some v ->
               BenchmarkChart.winner v = BenchmarkTable.winner r) /\
    (forall s, bcScore c = Some s ->
       BenchmarkChart.bcLine tip = BenchmarkTable.bcScoreCell r ++ " " ++ scoreUnit c) /\
    (forall s, jostleScore c = Some s ->
       BenchmarkChart.jostleLine tip
       = BenchmarkTable.jostleScoreCell r ++ " " ++ scoreUnit c) /\
    (forall s, bcError c = Some s ->
       BenchmarkChart.bcErrorLine tip = Some (BenchmarkTable.bcErrorCell r)) /\
    (forall s, jostleError c = Some s ->
       BenchmarkChart.jostleErrorLine tip = Some (BenchmarkTable.jostleErrorCell r)).
Proof.
  unfold BenchmarkTable.row, BenchmarkChart.CustomTooltip.
  set (data := BenchmarkChart.chartPoint host jmhMode context' c).
  destruct (tooltipDiffPercent_returns data) as (diff & -> & _).
  destruct (formatScoreWithUnit_returns (bcScore c) (scoreUnit c)) as (s1 & H1 & H1').
  destruct (formatScoreWithUnit_returns (jostleScore c) (scoreUnit c)) as (s2 & H2 & H2').
  destruct (tooltipError_returns (bcError c)) as (e1 & He1 & He1').
  destruct (tooltipError_returns (jostleError c)) as (e2 & He2 & He2').
  change (BenchmarkChart.bc data) with (bcScore c).
  change (BenchmarkChart.jostle data) with (jostleScore c).
  change (BenchmarkChart.unit data) with (scoreUnit c).
  change (BenchmarkChart.bcError data) with (bcError c).
  change (BenchmarkChart.jostleError data) with (jostleError c).
  rewrite H1, H2, He1, He2.
  destruct (formatScoreValue_returns host (bcScore c)) as (c1 & Hc1).
  destruct (formatScoreValue_returns host (jostleScore c)) as (c2 & Hc2).
  destruct (formatErrorMargin_returns host (bcError c)) as (m1 & Hm1).
  destruct (formatErrorMargin_returns host (jostleError c)) as (m2 & Hm2).
  destruct (ratioText_returns c) as (rt & Hrt).
  rewrite Hc1, Hc2, Hm1, Hm2, Hrt.
  pose proof (tooltipRatio_returns data) as Hr.
  unfold BenchmarkChart.tooltipWinner, BenchmarkTable.rowWinner.
  unfold BenchmarkChart.tooltipRatio in *.
  change (BenchmarkChart.bc data) with (bcScore c) in *.
  change (BenchmarkChart.jostle data) with (jostleScore c) in *.
  change (BenchmarkChart.jmhMode data) with jmhMode.
  assert (Hlines :
    (forall s, bcScore c = Some s -> s1 = c1 ++ " " ++ scoreUnit c) /\
    (forall s, jostleScore c = Some s -> s2 = c2 ++ " " ++ scoreUnit c) /\
    (forall s, bcError c = Some s -> option_map (fun s => "+/- " ++ s) e1 = Some m1) /\
    (forall s, jostleError c = Some s -> option_map (fun s => "+/- " ++ s) e2 = Some m2)).
  { repeat split; intros s Hs.
    - rewrite Hs in *. destruct H1' as (d & Hd & ->). congruence.
    - rewrite Hs in *. destruct H2' as (d & Hd & ->). congruence.
    - rewrite Hs in *. destruct He1' as (t & -> & Ht). cbn [option_map]. congruence.
    - rewrite Hs in *. destruct He2' as (t & -> & Ht). cbn [option_map]. congruence. }
  destruct Hlines as (L1 & L2 & L3 & L4).
  destruct (bcScore c) as [b|]; [destruct (jostleScore c) as [j|]|].
  - destruct Hr as (s & ->).
    destruct jmhMode; cbv iota;
      try destruct (gt j b); try destruct (lt j b);
      cbn [bind BenchmarkChart.optionally option_map]; cbv iota beta;
      (do 2 eexists; split; [reflexivity|]; split; [reflexivity|]);
      cbn [BenchmarkChart.verdict BenchmarkTable.winner BenchmarkChart.bcLine
           BenchmarkChart.jostleLine BenchmarkChart.bcErrorLine
           BenchmarkChart.jostleErrorLine BenchmarkTable.bcScoreCell
           BenchmarkTable.jostleScoreCell BenchmarkTable.bcErrorCell
           BenchmarkTable.jostleErrorCell BenchmarkChart.winner];
      (split; [split; intros Hd; discriminate Hd|]);
      (split; [intros v Hv; injection Hv as <-; reflexivity|]);
      repeat split; eauto.
  - cbn [bind BenchmarkChart.optionally option_map]. cbv iota beta.
    do 2 eexists. split; [reflexivity|]. split; [reflexivity|].
    cbn [BenchmarkChart.verdict BenchmarkTable.winner BenchmarkChart.bcLine
         BenchmarkChart.jostleLine BenchmarkChart.bcErrorLine
         BenchmarkChart.jostleErrorLine BenchmarkTable.bcScoreCell
         BenchmarkTable.jostleScoreCell BenchmarkTable.bcErrorCell
         BenchmarkTable.jostleErrorCell BenchmarkChart.winner].
    split; [split; reflexivity|].
    split; [intros v Hv; discriminate Hv|].
    repeat split; eauto.
  - cbn [bind BenchmarkChart.optionally option_map]. cbv iota beta.
    do 2 eexists. split; [reflexivity|]. split; [reflexivity|].
    cbn [BenchmarkChart.verdict BenchmarkTable.winner BenchmarkChart.bcLine
         BenchmarkChart.jostleLine BenchmarkChart.bcErrorLine
         BenchmarkChart.jostleErrorLine BenchmarkTable.bcScoreCell
         BenchmarkTable.jostleScoreCell BenchmarkTable.bcErrorCell
         BenchmarkTable.jostleErrorCell BenchmarkChart.winner].
    split; [split; reflexivity|].
    split; [intros v Hv; discriminate Hv|].
    repeat split; eauto.
Qed.

End TooltipFacts.


(** * The application *)

Lemma selections_app a b :
  Events.selections (a ++ b) = (Events.selections a ++ Events.selections b)%list.
Proof.
  induction a as [|[h| |p] a IH]; simpl; [reflexivity | exact IH | exact IH |].
  now rewrite IH.
Qed.

Lemma run_snoc events e : App.run (events ++ [e]) = App.step (App.run events) e.
Proof. unfold App.run. now rewrite fold_left_app. Qed.

Lemma app_invariant events :
  (App.run events = App.initial /\ Forall (fun e => Events.isSelect e = true) events) \/
  (exists h before after,
     events = (before ++ App.Resolved h :: after)%list /\
     Forall (fun e => Events.isSelect e = true) before /\
     App.run events
     = {| App.hierarchy := Some h;
          App.selectedPath := last (Events.selections after) "";
          App.loading := false;
          App.error := None |}) \/
  (exists before after,
     events = (before ++ App.Rejected :: after)%list /\
     Forall (fun e => Events.isSelect e = true) before /\
     App.run events
     = {| App.hierarchy := None;
          App.selectedPath := "";
          App.loading := false;
          App.error := Some App.failureMessage |}).
Proof.
  induction events as [|e events IH] using rev_ind; [left; split; [reflexivity | constructor]|].
  rewrite run_snoc.
  destruct IH as [[Hr Hf] | [(h & before & after & -> & Hf & Hr) |
                             (before & after & -> & Hf & Hr)]]; rewrite Hr.
  - destruct e as [h| |p].
    + right. left. exists h, events, []. repeat split; auto.
    + right. right. exists events, []. repeat split; auto.
    + left. split; [reflexivity|]. apply Forall_app. split; [exact Hf|].
      constructor; [reflexivity | constructor].
  - right. left. exists h, before, (after ++ [e])%list.
    rewrite <- app_assoc. split; [reflexivity|]. split; [exact Hf|].
    rewrite selections_app.
    destruct e as [h'| |p]; simpl; rewrite ?app_nil_r; try reflexivity.
    now rewrite last_last.
  - right. right. exists before, (after ++ [e])%list.
    rewrite <- app_assoc. split; [reflexivity|]. split; [exact Hf|].
    destruct e as [h'| |p]; reflexivity.
Qed.

(** X20: whatever happens, the application shows the loading notice until the
    load settles, then either the failure message of a rejected load or the
    views of the hierarchy the load resolved with, on the path selected
    last (the root before any selection); the hierarchy is never replaced
    and the text "Unknown error occurred" is never shown. *)
Theorem app_renderings (events : list App.Event) :
  match App.render (App.run events) with
  | App.Loading => Forall (fun e => Events.isSelect e = true) events
  | App.Error message =>
    message = App.failureMessage /\ message <> "Unknown error occurred" /\
    exists before after,
      events = (before ++ App.Rejected :: after)%list /\
      Forall (fun e => Events.isSelect e = true) before
  | App.Views h p =>
    exists before after,
      events = (before ++ App.Resolved h :: after)%list /\
      Forall (fun e => Events.isSelect e = true) before /\
      p = last (Events.selections after) ""
  end.
Proof.
  destruct (app_invariant events)
    as [[Hr Hf] | [(h & before & after & He & Hf & Hr) | (before & after & He & Hf & Hr)]];
    rewrite Hr.
  - exact Hf.
  - exists before, after. auto.
  - split; [reflexivity|]. split; [discriminate|]. exists before, after. auto.
Qed.

(** * The axis of the chart *)

Section AxisFacts.
Variable host : Host.

Lemma positive_number x : BenchmarkChart.positive x -> BenchmarkChart.isNaN x = false.
Proof. destruct x; [| |discriminate|]; reflexivity. Qed.

Lemma min2_choice a b :
  BenchmarkChart.positive a -> BenchmarkChart.positive b -> BenchmarkChart.min2 a b = a \/ BenchmarkChart.min2 a b = b.
Proof.
  intros Ha Hb. unfold BenchmarkChart.min2.
  rewrite (positive_number a Ha), (positive_number b Hb). simpl.
  destruct (lt a b); [now left|]. destruct (lt b a); [now right|].
  destruct a as [[]|[]| |[] ? ?], b as [[]|[]| |[] ? ?]; auto.
Qed.

Lemma max2_choice a b :
  BenchmarkChart.positive a -> BenchmarkChart.positive b -> BenchmarkChart.max2 a b = a \/ BenchmarkChart.max2 a b = b.
Proof.
  intros Ha Hb. unfold BenchmarkChart.max2.
  rewrite (positive_number a Ha), (positive_number b Hb). simpl.
  destruct (lt a b); [now right|]. destruct (lt b a); [now left|].
  destruct a as [[]|[]| |[] ? ?], b as [[]|[]| |[] ? ?]; auto.
Qed.

Lemma fold_choice (f : number -> number -> number) :
  (forall a b, BenchmarkChart.positive a -> BenchmarkChart.positive b -> f a b = a \/ f a b = b) ->
  forall vs init, BenchmarkChart.positive init -> Forall BenchmarkChart.positive vs ->
    BenchmarkChart.positive (fold_left f vs init) /\
    (fold_left f vs init = init \/ In (fold_left f vs init) vs).
Proof.
  intros Hf vs. induction vs as [|v vs IH]; intros init Hi Hvs; simpl; [auto|].
  inversion Hvs as [|x l Hv Hl]; subst.
  assert (Hp : BenchmarkChart.positive (f init v)) by (destruct (Hf init v Hi Hv) as [-> | ->]; auto).
  destruct (IH (f init v) Hp Hl) as [Hr [He | Hin]]; split; auto.
  rewrite He. destruct (Hf init v Hi Hv) as [-> | ->]; auto.
Qed.

Lemma min2_first x : BenchmarkChart.positive x -> BenchmarkChart.min2 (S754_infinity false) x = x.
Proof. destruct x as [[]|[]| |[] m e]; try discriminate; reflexivity. Qed.

Lemma max2_first x : BenchmarkChart.positive x -> BenchmarkChart.max2 (S754_infinity true) x = x.
Proof. destruct x as [[]|[]| |[] m e]; try discriminate; reflexivity. Qed.

Lemma allValues_positive chartData : Forall BenchmarkChart.positive (BenchmarkChart.allValues chartData).
Proof.
  unfold BenchmarkChart.allValues. induction chartData as [|d l IH]; simpl; [constructor|].
  apply Forall_app. split; [|exact IH].
  unfold BenchmarkChart.positiveScores. apply Forall_app. split.
  - destruct (BenchmarkChart.bc d) as [x|]; [|constructor].
    destruct (gt x (ofZ 0)) eqn:E; [|constructor]. constructor; [exact E | constructor].
  - destruct (BenchmarkChart.jostle d) as [x|]; [|constructor].
    destruct (gt x (ofZ 0)) eqn:E; [|constructor]. constructor; [exact E | constructor].
Qed.

(** X21: the axis of a chart. With no positive score the domain is the
    degenerate [0, -Infinity] and is not adjusted; with one, the minimum
    and the maximum are positive scores of the chart, so the test
    [minValue > 0] always holds and the domain is adjusted exactly when the
    ratio of maximum to minimum is below 10. *)
Theorem axis_domain (chartData : list BenchmarkChart.ChartDataPoint) :
  let values := BenchmarkChart.allValues chartData in
  (values = [] ->
   BenchmarkChart.domain chartData
   = {| BenchmarkChart.useAdjustedDomain := false;
        BenchmarkChart.domainMin := ofZ 0;
        BenchmarkChart.domainMax := S754_infinity true |}) /\
  (values <> [] ->
   In (BenchmarkChart.Math_min values) values /\
   In (BenchmarkChart.Math_max values) values /\
   gt (BenchmarkChart.Math_min values) (ofZ 0) = true /\
   BenchmarkChart.useAdjustedDomain (BenchmarkChart.domain chartData)
   = lt (div (BenchmarkChart.Math_max values) (BenchmarkChart.Math_min values)) (ofZ 10)).
Proof.
  intros values. split.
  - intros H. unfold BenchmarkChart.domain. fold values. rewrite H. vm_compute. reflexivity.
  - intros Hne. pose proof (allValues_positive chartData) as Hpos. fold values in Hpos.
    unfold BenchmarkChart.domain. fold values.
    destruct values as [|v vs]; [congruence|].
    inversion Hpos as [|x l Hv Hvs]; subst.
    unfold BenchmarkChart.Math_min, BenchmarkChart.Math_max. cbn [fold_left].
    rewrite (min2_first v Hv), (max2_first v Hv).
    destruct (fold_choice BenchmarkChart.min2 min2_choice vs v Hv Hvs) as [Hm1 Hm2].
    destruct (fold_choice BenchmarkChart.max2 max2_choice vs v Hv Hvs) as [HM1 HM2].
    split; [destruct Hm2 as [-> | H]; [now left | now right]|].
    split; [destruct HM2 as [-> | H]; [now left | now right]|].
    split; [exact Hm1|].
    cbn [BenchmarkChart.useAdjustedDomain]. unfold BenchmarkChart.positive in Hm1. rewrite Hm1.
    apply andb_true_r.
Qed.

Lemma formatPowerOfTen_digits v d :
  (0 <= d <= 100)%Z ->
  exists s, Formatters.formatPowerOfTen host v (Some d) = Normal s /\ powerOfTenNotation s.
Proof.
  intros Hd. unfold Formatters.formatPowerOfTen.
  match goal with
  | |- context [toFixed ?m d] => destruct (toFixed_returns m d Hd) as (s & -> & _)
  end.
  cbn [bind]. eexists. split; [reflexivity|]. eexists _, _. reflexivity.
Qed.

(** X22: a tick of the axis is always rendered: both zeros read "0", and a
    value of at least 1000 or strictly between 0 and 0.01 is written in
    power-of-ten notation. *)
Theorem formatXAxis_returns (value : number) :
  exists s,
    BenchmarkChart.formatXAxis host value = Normal s /\
    (strictEq value (ofZ 0) = true -> s = "0") /\
    (scientificRange value = true -> powerOfTenNotation s).
Proof.
  unfold BenchmarkChart.formatXAxis. fold (scientificRange value).
  destruct (strictEq value (ofZ 0)) eqn:E.
  - exists "0". split; [reflexivity|]. split; [reflexivity|].
    intros H. exfalso. unfold strictEq in E.
    destruct value as [[]|[]| |[] m e]; try discriminate E; vm_compute in H; discriminate H.
  - destruct (scientificRange value) eqn:Es.
    + destruct (formatPowerOfTen_digits value 1 ltac:(lia)) as (s & -> & Hs).
      exists s. repeat split; auto. discriminate.
    + destruct (lt value (ofZ 1)).
      * destruct (toFixed_returns value 2 ltac:(lia)) as (s & -> & _).
        exists s. repeat split; discriminate.
      * destruct (toFixed_returns value 0 ltac:(lia)) as (s & -> & _).
        exists s. repeat split; discriminate.
Qed.

End AxisFacts.

Lemma axis_domain_witness :
  BenchmarkChart.domain [BenchmarkChart.chartPoint Sample.host thrpt
                      (Label.labelContext []) (Sample.aesCbc None (Some (ofZ 0)))]
  = {| BenchmarkChart.useAdjustedDomain := false;
       BenchmarkChart.domainMin := ofZ 0;
       BenchmarkChart.domainMax := S754_infinity true |}.
Proof.
  apply (axis_domain [BenchmarkChart.chartPoint Sample.host thrpt
                        (Label.labelContext []) (Sample.aesCbc None (Some (ofZ 0)))]).
  reflexivity.
Defined.

(** * The provider, again *)

Lemma addProvider_again p ps :
  addProvider p (addProvider p ps) = addProvider p ps.
Proof.
  unfold addProvider at 2. destruct (existsb (provider_eqb p) ps) eqn:E.
  - unfold addProvider. now rewrite E.
  - unfold addProvider. rewrite existsb_app, E. simpl.
    replace (provider_eqb p p) with true by now destruct p.
    reflexivity.
Qed.

Lemma addProvider_extends p ps :
  (exists added, addProvider p ps = (ps ++ added)%list /\ (List.length added <= 1)%nat) /\
  (NoDup ps -> NoDup (addProvider p ps)).
Proof.
  unfold addProvider. destruct (existsb (provider_eqb p) ps) eqn:E.
  - split; [|auto]. exists []. split; [now rewrite app_nil_r | simpl; lia].
  - split; [exists [p]; split; [reflexivity | simpl; lia]|].
    intros Hnd. apply NoDup_app; [exact Hnd | constructor; [intros [] | constructor] |].
    intros x Hx [Heq | []]. subst x.
    assert (Hex : existsb (provider_eqb p) ps = true)
      by (apply existsb_exists; exists p; split; [exact Hx | now destruct p]).
    congruence.
Qed.

(** X23: setting the provider up a second time changes nothing: after a call of
    [initProvider] that returns, another call returns the same state, so
    the provider is not registered twice; the call keeps the providers
    registered before it, adds at most one, and leaves a provider in the
    field. *)
Theorem initProvider_again (this after : State) :
  initProvider this = Returns after ->
  initProvider after = Returns after /\
  (exists added, installed after = (installed this ++ added)%list /\
                 (List.length added <= 1)%nat) /\
  (NoDup (installed this) -> NoDup (installed after)) /\
  getProvider after <> None.
Proof.
  unfold initProvider.
  destruct (equalsIgnoreCase "BC" (providerName this)) eqn:Eb;
    [|destruct (equalsIgnoreCase "Jostle" (providerName this)) eqn:Ej];
    intros H; try discriminate H; injection H as <-;
    cbn [providerName provider installed getProvider];
    rewrite ?Eb, ?Ej, addProvider_again;
    (split; [reflexivity|]);
    match goal with
    | |- context [addProvider ?p (installed this)] =>
      destruct (addProvider_extends p (installed this)) as [Hadd Hnd]
    end;
    (split; [exact Hadd|]); (split; [exact Hnd | discriminate]).
Qed.

Lemma initProvider_again_witness :
  initProvider {| providerName := Some "bc"; provider := Some BouncyCastleProvider;
                  installed := [BouncyCastleProvider] |}
  = Returns {| providerName := Some "bc"; provider := Some BouncyCastleProvider;
               installed := [BouncyCastleProvider] |}.
Proof.
  apply (initProvider_again
           {| providerName := Some "bc"; provider := None; installed := [] |}
           {| providerName := Some "bc"; provider := Some BouncyCastleProvider;
              installed := [BouncyCastleProvider] |}).
  reflexivity.
Defined.

(** * Compositions *)

Section Compositions.
Variable host : Host.
Variable decodeURIComponent : string -> completion string.
Variable filterByJmhMode : list BenchmarkComparison -> JmhMode -> list BenchmarkComparison.
Variable getUniqueJmhModes : list BenchmarkComparison -> list JmhMode.

Lemma breadcrumbsFrom_names parts : forall i cur category,
  Forall (fun part => decodeURIComponent part = Normal part) parts ->
  category <> "KDF" ->
  exists more,
    breadcrumbsFrom host decodeURIComponent parts i cur category = Normal more /\
    map fst more = Formatters.displayParts host i parts.
Proof.
  induction parts as [|part rest IH]; intros i cur category Hd Hc;
    cbn [breadcrumbsFrom Formatters.displayParts]; [exists []; split; reflexivity|].
  inversion Hd as [|x l Hx Hl]; subst.
  unfold formatBreadcrumbPart. rewrite Hx. cbn [bind].
  destruct (IH (S i) (if truthy cur then cur ++ "/" ++ part else part) category Hl Hc)
    as (more & -> & Hm).
  cbn [bind]. eexists. split; [reflexivity|]. cbn [map fst]. rewrite Hm. f_equal.
  apply String.eqb_neq in Hc. rewrite Hc. reflexivity.
Qed.

(** X24: outside the KDF category the names of the breadcrumbs are the parts of
    the display path: for a path whose segments hold no escapes, joining
    the crumb names after "All" with " / " gives [buildDisplayPath] of the
    segments. *)
Theorem breadcrumbs_spell_display_path (path : string) :
  path <> "" ->
  Forall (fun part => decodeURIComponent part = Normal part) (splitSlash path) ->
  hd "" (splitSlash path) <> "KDF" ->
  exists more,
    getBreadcrumbs host decodeURIComponent path = Normal (("All", "") :: more) /\
    join " / " (map fst more) = Formatters.buildDisplayPath host (splitSlash path).
Proof.
  intros Hne Hd Hc. unfold getBreadcrumbs, Formatters.buildDisplayPath.
  assert (Ht : truthy path = true)
    by (unfold truthy; now apply negb_true_iff, String.eqb_neq).
  rewrite Ht. cbn [negb].
  destruct (breadcrumbsFrom_names (splitSlash path) 0 "" (hd "" (splitSlash path)) Hd Hc)
    as (more & -> & Hm).
  cbn [bind]. exists more. split; [reflexivity | now rewrite Hm].
Qed.

(** X25: in a rendered view the notice that no benchmarks were found is shown
    exactly when there is no section, and there are at most four sections,
    one per mode. *)
Theorem view_notice (state : ViewState) (h : HierarchyNode) (selectedPath : string)
    (panel : Panel) :
  BenchmarkView host decodeURIComponent filterByJmhMode getUniqueJmhModes
    state h selectedPath = Normal (Content panel) ->
  (noBenchmarksNotice panel = true <-> sections panel = []) /\
  (List.length (sections panel) <= 4)%nat.
Proof.
  unfold BenchmarkView. destruct (findNode h selectedPath) as [node|]; [|discriminate].
  destruct (getBreadcrumbs _ _ _) as [crumbs|e]; cbn [bind]; [|discriminate].
  match goal with |- context [bind ?c _] => destruct c as [t|e] end;
    cbn [bind]; [|discriminate].
  match goal with
  | |- context [sectionsOf host ?a ?b ?c ?d] =>
    destruct (sectionsOf_returns host a b c d) as (ss & -> & Hss)
  end.
  cbn [bind]. intros H. injection H as <-. cbn [noBenchmarksNotice sections].
  apply (f_equal (@List.length _)) in Hss. rewrite !length_map in Hss.
  match type of Hss with
  | _ = List.length (groupByJmhMode ?f) =>
    pose proof (groupByJmhMode_nil f) as Hn;
    destruct (groupByJmhMode_keys f) as (Hnd & _);
    apply modes_bound in Hnd; rewrite length_map in Hnd;
    destruct (groupByJmhMode f) as [|g gs]; destruct f as [|c cs]
  end.
  - destruct ss; [|discriminate]. simpl. split; [tauto | lia].
  - exfalso. destruct Hn as [Hn _]. specialize (Hn eq_refl). discriminate.
  - exfalso. destruct Hn as [_ Hn]. specialize (Hn eq_refl). discriminate.
  - destruct ss; [discriminate|]. simpl. split; [split; discriminate|].
    simpl in Hss, Hnd. lia.
Qed.

(** X26: the placeholder is out of reach of the application: when the views are
    shown and every selection came from a button of the sidebar, the
    selected path resolves and the view is not the placeholder. *)
Theorem placeholder_unreachable (events : list App.Event) (h : HierarchyNode)
    (p : string) (state : ViewState) (message : string) :
  App.render (App.run events) = App.Views h p ->
  (forall q, In (App.Select q) events -> In q (entryPaths (Sidebar.Sidebar host h))) ->
  BenchmarkView host decodeURIComponent filterByJmhMode getUniqueJmhModes state h p
  <> Normal (Placeholder message).
Proof.
  intros Hr Hsel.
  assert (Hin : In p (entryPaths (Sidebar.Sidebar host h))); [|
    destruct (sidebar_finds host h p Hin) as (n & Hn & _);
    now apply (resolved_not_placeholder host decodeURIComponent filterByJmhMode
                 getUniqueJmhModes state h n)].
  destruct (app_invariant events)
    as [[Hi _] | [(h' & before & after & He & _ & Hi) | (before & after & _ & _ & Hi)]];
    rewrite Hi in Hr; [discriminate | | discriminate].
  injection Hr as <- <-.
  assert (Hlast : forall l : list App.Event,
             last (Events.selections l) "" = "" \/
             In (App.Select (last (Events.selections l) "")) l).
  { induction l as [|[x| |q] l IH]; [now left | | |].
    - destruct IH; [now left | right; now right].
    - destruct IH; [now left | right; now right].
    - cbn [Events.selections]. destruct (Events.selections l) as [|q' l'] eqn:E.
      + right. left. reflexivity.
      + destruct IH as [IH | IH].
        * left. exact IH.
        * right. right. exact IH. }
  destruct (Hlast after) as [-> | Hin].
  - unfold Sidebar.Sidebar. now left.
  - apply Hsel. rewrite He. apply in_or_app. right. now right.
Qed.

End Compositions.

Lemma breadcrumbs_spell_display_path_witness :
  exists more,
    getBreadcrumbs Sample.host Sample.decodeURIComponent "PQC/MlKem/keyGen/MlKem768"
    = Normal (("All", "") :: more) /\
    join " / " (map fst more) = "PQC / ML-KEM / Key Generation / ML-KEM-768".
Proof.
  destruct (breadcrumbs_spell_display_path Sample.host Sample.decodeURIComponent
              "PQC/MlKem/keyGen/MlKem768") as (more & H1 & H2).
  - discriminate.
  - simpl. repeat constructor.
  - discriminate.
  - exists more. split; [exact H1|]. rewrite H2. reflexivity.
Defined.

Lemma view_notice_witness :
  exists panel,
    BenchmarkView Sample.host Sample.decodeURIComponent Sample.filterByJmhMode
      Sample.getUniqueJmhModes initialState
      (mkNode "" "" [mkNode "KDF" "KDF" [] []] []) "KDF" = Normal (Content panel) /\
    noBenchmarksNotice panel = true /\ sections panel = [].
Proof.
  eexists. split; [reflexivity|]. split; [reflexivity|].
  eapply (view_notice Sample.host Sample.decodeURIComponent Sample.filterByJmhMode
            Sample.getUniqueJmhModes initialState
            (mkNode "" "" [mkNode "KDF" "KDF" [] []] []) "KDF");
    reflexivity.
Defined.

Lemma placeholder_unreachable_witness :
  BenchmarkView Sample.host Sample.decodeURIComponent Sample.filterByJmhMode
    Sample.getUniqueJmhModes initialState
    (mkNode "" "" [mkNode "KDF" "KDF" [] []] []) "KDF"
  <> Normal (Placeholder "Select a benchmark from the sidebar to view results.").
Proof.
  apply (placeholder_unreachable Sample.host Sample.decodeURIComponent
           Sample.filterByJmhMode Sample.getUniqueJmhModes
           [App.Resolved (mkNode "" "" [mkNode "KDF" "KDF" [] []] []); App.Select "KDF"]).
  - reflexivity.
  - intros q [H | [H | []]]; [discriminate|]. injection H as <-.
    simpl. right. left. reflexivity.
Defined.
